(* ===================================================================== *)
(* Autocomplete / AutocompeteMultiple (packages/ui): the selection,      *)
(* filtering and list-height logic of the two combobox components,       *)
(* embedded as state transformers and checked against the specification. *)
(* With them: the Modal, the store registry and the Image helpers.       *)
(* ===================================================================== *)

From Stdlib Require Import ZArith String Ascii Lia.
From HB Require Import structures.
From mathcomp Require Import ssreflect ssrfun ssrbool eqtype ssrnat seq.

#[local] Set Warnings "-rewrite-rw".

Set Implicit Arguments.
Unset Strict Implicit.
Unset Printing Implicit Defensive.

(* --------------------------------------------------------------------- *)
(* 1. The JavaScript values the components compute with                   *)
(* --------------------------------------------------------------------- *)

(* A string is a sequence of code units; Stdlib's [string] gives the code
   units below 256. *)

(* A JS number, restricted to what the components use: integers (exact in
   a double below 2^53) and NaN. *)
Inductive number : Type :=
| NaN
| Num (z : Z).

(* type OptionValue = string | number *)
Inductive OptionValue : Type :=
| VStr (s : string)
| VNum (n : number).

(* interface OptionType { value: OptionValue; label: string } *)
Record OptionType : Type := mkOptionType {
  value : OptionValue;
  label : string
}.

(* T extends OptionType | string *)
Inductive Option : Type :=
| OStr (s : string)
| ORec (o : OptionType).

(* a === b on numbers: NaN is different from everything, itself included. *)
Definition number_eq (a b : number) : bool :=
  match a, b with
  | Num x, Num y => Z.eqb x y
  | _, _ => false
  end.

(* a === b on OptionValue: no conversion between string and number. *)
Definition strict_eq (a b : OptionValue) : bool :=
  match a, b with
  | VStr s, VStr t => String.eqb s t
  | VNum x, VNum y => number_eq x y
  | _, _ => false
  end.

Notation "a === b" := (strict_eq a b) (at level 70, no associativity).
Notation "a !== b" := (negb (strict_eq a b)) (at level 70, no associativity).

(* ToBoolean on a number: 0 and NaN are falsy. *)
Definition number_truthy (n : number) : bool :=
  match n with
  | NaN => false
  | Num z => negb (Z.eqb z 0)
  end.

(* ToBoolean on an option: an object is truthy, a string is truthy unless
   it is the empty string. *)
Definition truthy (o : Option) : bool :=
  match o with
  | OStr s => negb (String.eqb s EmptyString)
  | ORec _ => true
  end.

(* a > b on numbers; every comparison with NaN is false. *)
Definition number_gt (a b : number) : bool :=
  match a, b with
  | Num x, Num y => Z.ltb y x
  | _, _ => false
  end.

(* Math.min(a, b): NaN as soon as one argument is NaN. *)
Definition Math_min (a b : number) : number :=
  match a, b with
  | Num x, Num y => Num (Z.min x y)
  | _, _ => NaN
  end.

(* array.length as a number *)
Definition length_of (T : Type) (s : seq T) : number := Num (Z.of_nat (size s)).

(* String.prototype.toLowerCase on code units below 256: the letters A-Z
   and the Latin-1 capitals 192-214 and 216-222 move 32 up, every other
   unit below 256 is its own lower case. *)
Definition lower_unit (c : ascii) : ascii :=
  let n := nat_of_ascii c in
  if [|| (65 <= n) && (n <= 90), (192 <= n) && (n <= 214)
       | (216 <= n) && (n <= 222)]
  then ascii_of_nat (n + 32) else c.

Fixpoint toLowerCase (s : string) : string :=
  match s with
  | EmptyString => EmptyString
  | String c s' => String (lower_unit c) (toLowerCase s')
  end.

(* String.prototype.includes(t): t occurs in s as a contiguous block. *)
Fixpoint includes (s t : string) : bool :=
  String.prefix t s ||
  match s with
  | EmptyString => false
  | String _ s' => includes s' t
  end.

(* StrWhiteSpaceChar among the code units below 256. *)
Definition isWhiteSpace (c : ascii) : bool :=
  let n := nat_of_ascii c in
  ((9 <= n) && (n <= 13)) || (n == 32) || (n == 160).

Fixpoint trimStart (s : string) : string :=
  match s with
  | EmptyString => EmptyString
  | String c s' => if isWhiteSpace c then trimStart s' else s
  end.

Definition digit_of (c : ascii) : option Z :=
  let n := nat_of_ascii c in
  if (48 <= n) && (n <= 57) then Some (Z.of_nat (n - 48)) else None.

(* The value of the longest prefix of decimal digits; [acc] is [None]
   until a digit has been read. *)
Fixpoint digits (s : string) (acc : option Z) : option Z :=
  match s with
  | EmptyString => acc
  | String c s' =>
      match digit_of c with
      | Some d => digits s' (Some (10 * (if acc is Some a then a else 0) + d)%Z)
      | None => acc
      end
  end.

(* The integers a double holds exactly: up to 2^53 in size. *)
Definition exact_in_double (m : Z) : bool :=
  (Z.abs m <=? 9007199254740992)%Z.

(* Number.parseInt(s, 10): leading white space, an optional sign, then
   decimal digits; anything after the digits is ignored; NaN when there is
   no digit. The result is a double: it is the integer read when that is
   at most 2^53 in size. For a longer integer the result is a rounded
   value, left to the implementation beyond 20 digits, and outside this
   model: None. *)
Definition parseInt10 (s : string) : option number :=
  let s1 := trimStart s in
  let: (sign, s2) :=
    match s1 with
    | String "-"%char r => ((-1)%Z, r)
    | String "+"%char r => (1%Z, r)
    | _ => (1%Z, s1)
    end in
  match digits s2 None with
  | Some m => if exact_in_double m then Some (Num (sign * m)) else None
  | None => Some NaN
  end.

(* --------------------------------------------------------------------- *)
(* 2. Props shared by the two components                                  *)
(* --------------------------------------------------------------------- *)

(* getOptionLabel = option => typeof option === 'string' ? option : option.label *)
Definition default_getOptionLabel (option : Option) : string :=
  match option with
  | OStr s => s
  | ORec o => label o
  end.

(* getOptionValue = option => typeof option === 'string' ? option : option.value *)
Definition default_getOptionValue (option : Option) : OptionValue :=
  match option with
  | OStr s => VStr s
  | ORec o => value o
  end.

(* filterOption = (option, searchValue) =>
     getOptionLabel(option).toLowerCase().includes(searchValue.toLowerCase()) *)
Definition default_filterOption (getOptionLabel : Option -> string)
    (option : Option) (searchValue : string) : bool :=
  includes (toLowerCase (getOptionLabel option)) (toLowerCase searchValue).

(* What useVirtualizer hands back for one mounted row. *)
Record VirtualItem : Type := mkVirtualItem {
  index : nat;
  start : Z;
  item_size : Z
}.

(** Modelled from the spec: the list-virtualization primitive
    (useVirtualizer of @tanstack/react-virtual, whose code is not under
    src/), as section 4.2 of the specification has it: of itemCount items
    of one size, laid out from offset 0, the ones that overlap
    [scrollOffset - overscan, scrollOffset + viewportHeight + overscan], in
    order, each with its index, offset and size. *)
Definition getVirtualItems (itemCount : nat)
    (itemSize overscan scrollOffset viewportHeight : Z) : seq VirtualItem :=
  [seq mkVirtualItem i (Z.of_nat i * itemSize) itemSize
  | i <- [seq i <- iota 0 itemCount
         | ((Z.of_nat i * itemSize
               <=? scrollOffset + viewportHeight + overscan)%Z
            && (scrollOffset - overscan
                  <=? Z.of_nat i * itemSize + itemSize)%Z)]].

(* Handlers return nothing: they are transformers of the component's world,
   run one after the other. *)
Definition seq_action (W : Type) (f g : W -> W) : W -> W := fun w => g (f w).
Notation "f ;; g" := (seq_action f g) (at level 61, left associativity).

Definition skip (W : Type) : W -> W := fun w => w.

(* --------------------------------------------------------------------- *)
(* 3. AutocompeteMultiple (autocomplete-multiple.tsx)                     *)
(* --------------------------------------------------------------------- *)

Module Multiple.

(* onSearch?: (value: string) => void. The callback may finish inside the
   call, or start work that settles later; the component never receives
   the promise. *)
Inductive SearchKind : Type :=
| Synchronous
| Asynchronous.

(* Calls the component makes to its surroundings. *)
Inductive Event : Type :=
| onChange_called (selected : seq Option)
| input_focused
| onSearch_called (searchValue : string) (loading_then : bool).

Record World : Type := mkWorld {
  (* the four useState cells of AutocompeteMultiple *)
  open : bool;
  selectedOptions : seq Option;
  loading : bool;
  searchValue : string;
  (* useDebouncyFn: the argument of the call waiting for the delay *)
  debounced : option string;
  (* asynchronous onSearch calls that have not settled yet, oldest first *)
  unsettled : seq string;
  (* calls made so far, oldest first *)
  calls : seq Event
}.

Definition setOpen (b : bool) (w : World) : World :=
  mkWorld b (selectedOptions w) (loading w) (searchValue w)
          (debounced w) (unsettled w) (calls w).

Definition setSelectedOptions (s : seq Option) (w : World) : World :=
  mkWorld (open w) s (loading w) (searchValue w)
          (debounced w) (unsettled w) (calls w).

Definition setLoading (b : bool) (w : World) : World :=
  mkWorld (open w) (selectedOptions w) b (searchValue w)
          (debounced w) (unsettled w) (calls w).

Definition setSearchValue (v : string) (w : World) : World :=
  mkWorld (open w) (selectedOptions w) (loading w) v
          (debounced w) (unsettled w) (calls w).

Definition setDebounced (d : option string) (w : World) : World :=
  mkWorld (open w) (selectedOptions w) (loading w) (searchValue w)
          d (unsettled w) (calls w).

Definition setUnsettled (u : seq string) (w : World) : World :=
  mkWorld (open w) (selectedOptions w) (loading w) (searchValue w)
          (debounced w) u (calls w).

Definition emit (e : Event) (w : World) : World :=
  mkWorld (open w) (selectedOptions w) (loading w) (searchValue w)
          (debounced w) (unsettled w) (rcons (calls w) e).

(* useState(value || []), useState(false), useState('') *)
Definition mount (value : option (seq Option)) : World :=
  mkWorld false (if value is Some v then v else [::]) false EmptyString
          None [::] [::].

Section Component.

Variable getOptionLabel : Option -> string.
Variable getOptionValue : Option -> OptionValue.
Variable filterOption : Option -> string -> bool.
Variable height : string.
Variable disabled : bool.
(* onChange, as "was the callback passed" *)
Variable onChange : bool.
Variable maxSelected : option number.
Variable onSearch : option SearchKind.

(* onChange?.(selected) *)
Definition call_onChange (selected : seq Option) : World -> World :=
  if onChange then emit (onChange_called selected) else @skip World.

(* inputRef.current?.focus() *)
Definition focus : World -> World := emit input_focused.

(* onSearch?.(searchValue) *)
Definition call_onSearch (v : string) : World -> World :=
  match onSearch with
  | None => @skip World
  | Some Synchronous => fun w => emit (onSearch_called v (loading w)) w
  | Some Asynchronous =>
      fun w => setUnsettled (rcons (unsettled w) v)
                 (emit (onSearch_called v (loading w)) w)
  end.

(* useEffect(() => { if (value) setSelectedOptions(value) }, [value]):
   run when React finds the value prop changed. An array is truthy, also
   the empty one. *)
Definition value_effect (value : option (seq Option)) : World -> World :=
  match value with
  | Some v => setSelectedOptions v
  | None => @skip World
  end.

(* maxSelected && currentValue.length > maxSelected *)
Definition exceeds (len : number) : bool :=
  match maxSelected with
  | None => false
  | Some m => number_truthy m && number_gt len m
  end.

Definition handleSelectOptions (currentValue : seq Option) : World -> World :=
  fun w =>
    if exceeds (length_of currentValue) then w
    else (setSelectedOptions currentValue ;;
          setSearchValue EmptyString ;;
          call_onChange currentValue ;;
          focus) w.

(* The world after a select that went through. *)
Definition replaced (currentValue : seq Option) (w : World) : World :=
  mkWorld (open w) currentValue (loading w) EmptyString
          (debounced w) (unsettled w)
          (calls w ++ (if onChange then [:: onChange_called currentValue] else [::])
                   ++ [:: input_focused]).

(* "maxSelected is set to a number other than 0 and the list is longer". *)
Definition over_limit (currentValue : seq Option) : Prop :=
  exists m : Z, [/\ maxSelected = Some (Num m), m <> 0%Z
                  & (m < Z.of_nat (size currentValue))%Z].

Definition handleClearOption (option : Option) : World -> World :=
  fun w =>
    let newSelected :=
      [seq item <- selectedOptions w | getOptionValue item !== getOptionValue option] in
    (call_onChange newSelected ;; focus ;; setSelectedOptions newSelected) w.

Definition handleClearAll : World -> World :=
  setSelectedOptions [::] ;; call_onChange [::] ;; focus.

(* the function given to useDebouncyFn *)
Definition search_now (v : string) : World -> World :=
  setLoading true ;; call_onSearch v ;; setLoading false.

(* useDebouncyFn(fn, delay): a call replaces the waiting one and restarts
   the delay; when the delay runs out the waiting call is made. *)
Definition debouncedSearch (v : string) : World -> World :=
  setDebounced (Some v).

Definition delay_elapsed : World -> World :=
  fun w =>
    match debounced w with
    | Some v => (setDebounced None ;; search_now v) w
    | None => w
    end.

Definition handleSearch (v : string) : World -> World :=
  setSearchValue v ;;
  (if onSearch is Some _ then debouncedSearch v else @skip World).

(* An asynchronous onSearch call settles. No code of the component runs. *)
Definition search_settled (i : nat) : World -> World :=
  fun w => setUnsettled (take i (unsettled w) ++ drop i.+1 (unsettled w)) w.

(* ---- VirtualizedCommand ---- *)

Definition filteredOptions (options : seq Option) (searchValue : string) : seq Option :=
  [seq option <- options | filterOption option searchValue].

(* Math.min(Number.parseInt(height, 10), filteredOptions.length * 35);
   None where parseInt10 is *)
Definition listHeight (filtered : seq Option) : option number :=
  if parseInt10 height is Some h
  then Some (Math_min h (Num (Z.of_nat (size filtered) * 35)))
  else None.

(* virtualOptions.map(v => filteredOptions[v.index]): the option of each
   mounted row, None where the index is past the end *)
Definition rows (virtualOptions : seq VirtualItem) (filtered : seq Option)
  : seq (option Option) :=
  [seq nth None [seq Some o | o <- filtered] (index v) | v <- virtualOptions].

Definition isSelected (option : Option) (selected : seq Option) : bool :=
  has (fun item => getOptionValue item === getOptionValue option) selected.

Definition handleSelectOption (option : Option) : World -> World :=
  fun w =>
    if disabled then w
    else
      let newSelected :=
        if isSelected option (selectedOptions w)
        then [seq item <- selectedOptions w
             | getOptionValue item !== getOptionValue option]
        else rcons (selectedOptions w) option in
      handleSelectOptions newSelected w.

(* The selection with the entries of option's key taken out. *)
Definition without (option : Option) (selected : seq Option) : seq Option :=
  [seq item <- selected | getOptionValue item !== getOptionValue option].

(* No entry has the key of a later one, keys compared as the code does. *)
Definition unique_keys (selected : seq Option) : bool :=
  pairwise (fun a b => getOptionValue a !== getOptionValue b) selected.

(* An onSearch call was made while the loading flag was true. *)
Definition during_loading (e : Event) : bool :=
  if e is onSearch_called _ flag then flag else true.

(* What can happen to a mounted component. *)
Inductive Input : Type :=
| OpenChange (b : bool)
| ValueChange (value : option (seq Option))
| Activate (option : Option)
| Select (options : seq Option)
| ClearOne (option : Option)
| ClearAll
| Typed (v : string)
| DelayElapsed
| Settled (i : nat).

Definition step (i : Input) : World -> World :=
  match i with
  | OpenChange b => setOpen b
  | ValueChange v => value_effect v
  | Activate o => handleSelectOption o
  | Select os => handleSelectOptions os
  | ClearOne o => handleClearOption o
  | ClearAll => handleClearAll
  | Typed v => handleSearch v
  | DelayElapsed => delay_elapsed
  | Settled k => search_settled k
  end.

Definition run (inputs : seq Input) (w : World) : World :=
  foldl (fun w i => step i w) w inputs.

(* The lists an input brings in from outside have distinct keys. *)
Definition well_keyed (i : Input) : bool :=
  match i with
  | Select options => unique_keys options
  | ValueChange (Some value) => unique_keys value
  | _ => true
  end.

End Component.

End Multiple.

(* --------------------------------------------------------------------- *)
(* 4. Autocomplete, the single-select component                           *)
(* --------------------------------------------------------------------- *)

Module Single.

Inductive Event : Type :=
| onChange_called (selected : option Option).

Record World : Type := mkWorld {
  (* useState cells of Autocomplete *)
  open : bool;
  selectedOption : option Option;
  initialSearch : string;
  (* useState cells of its VirtualizedCommand *)
  filteredOptions : seq Option;
  searchValue : string;
  (* calls made so far, oldest first *)
  calls : seq Event
}.

Definition setOpen (b : bool) (w : World) : World :=
  mkWorld b (selectedOption w) (initialSearch w)
          (filteredOptions w) (searchValue w) (calls w).

Definition setSelectedOption (o : option Option) (w : World) : World :=
  mkWorld (open w) o (initialSearch w)
          (filteredOptions w) (searchValue w) (calls w).

Definition setInitialSearch (v : string) (w : World) : World :=
  mkWorld (open w) (selectedOption w) v
          (filteredOptions w) (searchValue w) (calls w).

Definition setFilteredOptions (s : seq Option) (w : World) : World :=
  mkWorld (open w) (selectedOption w) (initialSearch w)
          s (searchValue w) (calls w).

Definition setSearchValue (v : string) (w : World) : World :=
  mkWorld (open w) (selectedOption w) (initialSearch w)
          (filteredOptions w) v (calls w).

Definition emit (e : Event) (w : World) : World :=
  mkWorld (open w) (selectedOption w) (initialSearch w)
          (filteredOptions w) (searchValue w) (rcons (calls w) e).

(* ToBoolean on a value of type T | null *)
Definition present (v : option Option) : bool :=
  if v is Some o then truthy o else false.

Section Component.

Variable options : seq Option.
Variable getOptionLabel : Option -> string.
Variable getOptionValue : Option -> OptionValue.
Variable filterOption : Option -> string -> bool.
Variable height : string.
(* onChange, as "was the callback passed" *)
Variable onChange : bool.

(* useState(false), useState(null), useState(''); the list starts with
   useState(options), useState(initialSearch) *)
Definition mount : World :=
  mkWorld false None EmptyString options EmptyString [::].

(* onChange?.(newValue) *)
Definition call_onChange (newValue : option Option) : World -> World :=
  if onChange then emit (onChange_called newValue) else @skip World.

(* useEffect(() => { setSelectedOption(value || null) }, [value]) *)
Definition value_effect (value : option Option) : World -> World :=
  setSelectedOption (if present value then value else None).

Definition handleSelectOption (currentValue : Option) : World -> World :=
  fun w =>
    let newValue :=
      if (if selectedOption w is Some selected
          then truthy selected &&
               (getOptionValue selected === getOptionValue currentValue)
          else false)
      then None
      else Some currentValue in
    (setSelectedOption newValue ;;
     setInitialSearch (if newValue is Some o
                       then (if truthy o then getOptionLabel o else EmptyString)
                       else EmptyString) ;;
     setOpen false ;;
     call_onChange newValue) w.

(* ---- VirtualizedCommand ---- *)

Definition handleSearch (search : string) : World -> World :=
  setSearchValue search ;;
  setFilteredOptions [seq option <- options | filterOption option search].

(* The popover content mounts the list: useState(options),
   useState(initialSearch), then the effect
   if (initialSearch) handleSearch(initialSearch). *)
Definition list_mounted : World -> World :=
  fun w =>
    let w' := (setFilteredOptions options ;; setSearchValue (initialSearch w)) w in
    if String.eqb (initialSearch w) EmptyString then w'
    else handleSearch (initialSearch w) w'.

(* Math.min(Number.parseInt(height, 10), filteredOptions.length * 35);
   None where parseInt10 is *)
Definition listHeight (w : World) : option number :=
  if parseInt10 height is Some h
  then Some (Math_min h (Num (Z.of_nat (size (filteredOptions w)) * 35)))
  else None.

Definition rows (virtualOptions : seq VirtualItem) (w : World)
  : seq (option Option) :=
  [seq nth None [seq Some o | o <- filteredOptions w] (index v)
  | v <- virtualOptions].

(* The test of handleSelectOption: an option of x's key is selected. *)
Definition key_selected (x : Option) (w : World) : bool :=
  if selectedOption w is Some selected
  then truthy selected && (getOptionValue selected === getOptionValue x)
  else false.

Inductive Input : Type :=
| OpenChange (b : bool)
| ValueChange (value : option Option)
| Activate (option : Option)
| Search (search : string).

Definition step (i : Input) : World -> World :=
  match i with
  | OpenChange b => if b then setOpen true ;; list_mounted else setOpen false
  | ValueChange v => value_effect v
  | Activate o => handleSelectOption o
  | Search s => handleSearch s
  end.

End Component.

End Single.

(* --------------------------------------------------------------------- *)
(* Modal (the second component of autocomplete-multiple.tsx)              *)
(* --------------------------------------------------------------------- *)

Module Modal.

(* type ButtonVariant = 'default' | 'destructive' | ... *)
Inductive ButtonVariant : Type :=
| default | destructive | outline | secondary | ghost | link.

(* type?: 'button' | 'submit' | 'reset' *)
Inductive ButtonType : Type :=
| button | submit | reset.

(* interface ButtonConfig; onClick is a function of the caller, named here
   by a number *)
Record ButtonConfig : Type := mkButtonConfig {
  label : string;
  onClick : option nat;
  variant : option ButtonVariant;
  type : option ButtonType
}.

(* What a rendered button runs on a click: a function of the caller, or
   the onClose given to renderButtons. *)
Inductive Handler : Type :=
| caller (f : nat)
| close.

(* The props of a rendered <Button>; a disabled that is not passed counts
   as false. *)
Record Button : Type := mkButton {
  children : string;
  button_type : ButtonType;
  button_variant : option ButtonVariant;
  button_onClick : option Handler;
  button_disabled : bool
}.

Definition is_submit (t : ButtonType) : bool :=
  if t is submit then true else false.

(* const isFormModal = props => 'onSubmit' in props && 'validationSchema' in props *)
Definition isFormModal (has_onSubmit has_validationSchema : bool) : bool :=
  has_onSubmit && has_validationSchema.

(* button => <Button key=... type=... variant=... onClick=... disabled=...> *)
Definition render_button (isSubmitting : bool) (onClose : bool)
    (b : ButtonConfig) : Button :=
  mkButton (label b)
    (if type b is Some t then t else button)
    (Some (if variant b is Some v then v else default))
    (if onClick b is Some f then Some (caller f)
     else if type b is Some button
          then (if onClose then Some close else None)
          else None)
    (isSubmitting && (if type b is Some t then is_submit t else false)).

Definition close_button : Button :=
  mkButton "Close" button (Some outline) (Some close) false.

Definition submit_button (isSubmitting : bool) : Button :=
  mkButton (if isSubmitting then "Submitting..." else "Submit")%string
           submit None None isSubmitting.

Definition renderButtons (buttons : option (seq ButtonConfig))
    (isSubmitting isFormModal : bool) (onClose : bool) : seq Button :=
  if (if buttons is Some bs then 0 < size bs else false)
  then [seq render_button isSubmitting onClose b
       | b <- (if buttons is Some bs then bs else [::])]
  else (if onClose then [:: close_button] else [::])
       ++ (if isFormModal then [:: submit_button isSubmitting] else [::]).

(* The buttons of the Modal: FormModalContent passes the submitting flag of
   the form and true, NonFormModalContent passes false and false; both are
   given onClose = () => handleOpenChange(false). *)
Definition modal_buttons (has_onSubmit has_validationSchema : bool)
    (buttons : option (seq ButtonConfig)) (isSubmitting : bool) : seq Button :=
  if isFormModal has_onSubmit has_validationSchema
  then renderButtons buttons isSubmitting true true
  else renderButtons buttons false false true.

(* await onSubmit(data): the promise is fulfilled or rejected. *)
Inductive Outcome : Type :=
| fulfilled
| rejected (error : string).

Inductive Event : Type :=
| onSubmit_called
| onClose_called
| console_error (error : string)
| caller_called (f : nat).

Record World : Type := mkWorld {
  internalIsOpen : bool;
  log : seq Event
}.

Definition setInternalIsOpen (b : bool) (w : World) : World :=
  mkWorld b (log w).

Definition emit (e : Event) (w : World) : World :=
  mkWorld (internalIsOpen w) (rcons (log w) e).

(* useState(false) *)
Definition mount : World := mkWorld false [::].

Section Component.

(* the onClose prop of the Modal, as "was the callback passed" *)
Variable onClose : bool.

(* useEffect(() => { if (externalIsOpen !== undefined)
     setInternalIsOpen(externalIsOpen) }, [externalIsOpen]) *)
Definition isOpen_effect (externalIsOpen : option bool) : World -> World :=
  if externalIsOpen is Some b then setInternalIsOpen b else @skip World.

Definition handleOpenChange (open : bool) : World -> World :=
  setInternalIsOpen open ;;
  (if ~~ open then (if onClose then emit onClose_called else @skip World)
   else @skip World).

(* FormModalContent.handleSubmit, its onClose being
   () => handleOpenChange(false):
   try { await onSubmit(data); onClose?.() }
   catch (error) { console.error('Form submission error:', error) } *)
Definition handleSubmit (outcome : Outcome) : World -> World :=
  emit onSubmit_called ;;
  match outcome with
  | fulfilled => handleOpenChange false
  | rejected error => emit (console_error error)
  end.

(* The onClick of a rendered button runs, when the button is not
   disabled. This is the handler alone: what the browser does next for a
   button of type submit inside the form is the submission, below. *)
Definition run_onClick (b : Button) : World -> World :=
  if button_disabled b then @skip World
  else match button_onClick b with
       | Some (caller f) => emit (caller_called f)
       | Some close => handleOpenChange false
       | None => @skip World
       end.

(* A whole click on a rendered button: its onClick, then the default
   action. FormModalContent puts the buttons inside
   <form onSubmit={form.handleSubmit(handleSubmit)}>, so there a button of
   type submit submits the form: handleSubmit runs when the form is valid
   (submission = the outcome of onSubmit) and not otherwise (None). A reset
   button empties the fields, which are not part of this state; a button of
   type button has no default action, and NonFormModalContent has no form. *)
Definition press (in_form : bool) (submission : option Outcome) (b : Button)
  : World -> World :=
  if button_disabled b then @skip World
  else run_onClick b ;;
       (if in_form && is_submit (button_type b)
        then (if submission is Some outcome then handleSubmit outcome
              else @skip World)
        else @skip World).

(* Click is the onClick of a button; the submission a click may start is
   the input Submit. *)
Inductive Input : Type :=
| IsOpenProp (externalIsOpen : option bool)
| OpenChange (open : bool)
| Submit (outcome : Outcome)
| Click (b : Button).

Definition step (i : Input) : World -> World :=
  match i with
  | IsOpenProp v => isOpen_effect v
  | OpenChange b => handleOpenChange b
  | Submit o => handleSubmit o
  | Click b => run_onClick b
  end.

Definition run (inputs : seq Input) (w : World) : World :=
  foldl (fun w i => step i w) w inputs.

(* The input asks the dialog to close. *)
Definition closes (i : Input) : bool :=
  match i with
  | OpenChange false => true
  | Submit fulfilled => true
  | Click b => ~~ button_disabled b && (if button_onClick b is Some close then true else false)
  | _ => false
  end.

Definition is_onClose (e : Event) : bool :=
  if e is onClose_called then true else false.

End Component.

End Modal.

(* --------------------------------------------------------------------- *)
(* The store registry (store/reset.ts and the create wrapper)             *)
(* --------------------------------------------------------------------- *)

Module Store.

Section Stores.

(* the state type of the stores *)
Variable T : Type.

(* A zustand store made by the wrapper, with the initialState its reset
   function has captured. *)
Record Store : Type := mkStore {
  initialState : T;
  state : T
}.

(* storeResetFns holds one closure per store made by create; a closure is
   named by the position of its store. A Set iterates in insertion order. *)
Record World : Type := mkWorld {
  stores : seq Store;
  storeResetFns : seq nat
}.

Definition empty : World := mkWorld [::] [::].

Fixpoint update (id : nat) (f : Store -> Store) (s : seq Store) : seq Store :=
  match s, id with
  | [::], _ => [::]
  | x :: s', 0 => f x :: s'
  | x :: s', id'.+1 => x :: update id' f s'
  end.

(* create(stateCreator): const store = _create(stateCreator);
   const initialState = store.getState();
   storeResetFns.add(() => store.setState(initialState, true)) *)
Definition create (stateCreator : T) (w : World) : World :=
  mkWorld (rcons (stores w) (mkStore stateCreator stateCreator))
          (rcons (storeResetFns w) (size (stores w))).

(* store.setState of the store at position id *)
Definition setState (id : nat) (f : T -> T) (w : World) : World :=
  mkWorld (update id (fun s => mkStore (initialState s) (f (state s))) (stores w))
          (storeResetFns w).

(* () => store.setState(initialState, true) *)
Definition resetFn (s : Store) : Store :=
  mkStore (initialState s) (initialState s).

(* for (const resetFn of storeResetFns) resetFn() *)
Definition resetAllStores (w : World) : World :=
  mkWorld (foldl (fun st id => update id resetFn st) (stores w) (storeResetFns w))
          (storeResetFns w).

Inductive Input : Type :=
| Create (stateCreator : T)
| SetState (id : nat) (f : T -> T)
| ResetAll.

Definition step (i : Input) : World -> World :=
  match i with
  | Create init => create init
  | SetState id f => setState id f
  | ResetAll => resetAllStores
  end.

Definition run (inputs : seq Input) (w : World) : World :=
  foldl (fun w i => step i w) w inputs.

Definition is_create (i : Input) : bool :=
  if i is Create _ then true else false.

(* Every store made so far has its reset function in the registry, once. *)
Definition registered (w : World) : Prop :=
  storeResetFns w = iota 0 (size (stores w)).

End Stores.

End Store.

(* --------------------------------------------------------------------- *)
(* Image (components/image.tsx)                                           *)
(* --------------------------------------------------------------------- *)

Module Image.

(* s.startsWith(p) *)
Definition startsWith (s p : string) : bool := String.prefix p s.

Fixpoint all_units (p : ascii -> bool) (s : string) : bool :=
  match s with
  | EmptyString => true
  | String c s' => p c && all_units p s'
  end.

Definition hex_digit (n : nat) : ascii :=
  nth "0"%char
    [:: "0"; "1"; "2"; "3"; "4"; "5"; "6"; "7";
        "8"; "9"; "A"; "B"; "C"; "D"; "E"; "F"]%char n.

(* "%XY" for the byte n *)
Definition escape (n : nat) : string :=
  String "%" (String (hex_digit (Nat.div n 16))
                (String (hex_digit (Nat.modulo n 16)) EmptyString)).

(* The characters encodeURIComponent keeps: A-Z a-z 0-9 - _ . ! ~ * ' ( ) *)
Definition unreserved (c : ascii) : bool :=
  let n := nat_of_ascii c in
  [|| (65 <= n) && (n <= 90), (97 <= n) && (n <= 122), (48 <= n) && (n <= 57)
    | n \in [:: 45; 95; 46; 33; 126; 42; 39; 40; 41]].

(* One code unit: kept, or the escapes of its UTF-8 bytes (one byte below
   128, two bytes from 128 to 255). *)
Definition encode_unit (c : ascii) : string :=
  let n := nat_of_ascii c in
  if unreserved c then String c EmptyString
  else if n < 128 then escape n
  else append (escape (192 + Nat.div n 64)) (escape (128 + Nat.modulo n 64)).

Fixpoint encodeURIComponent (s : string) : string :=
  match s with
  | EmptyString => EmptyString
  | String c s' => append (encode_unit c) (encodeURIComponent s')
  end.

(* `${cdnDomain}`: an environment variable that is not set reads as
   undefined *)
Definition template (v : option string) : string :=
  if v is Some d then d else "undefined"%string.

Definition absolute (src : string) : bool :=
  startsWith src "http://" || startsWith src "https://".

Definition getImageUrl (cdnDomain : option string) (src : string)
    (useCdn : bool) : string :=
  if useCdn && absolute src
  then append (template cdnDomain) (String "/" (encodeURIComponent src))
  else src.

(* A character that ends or splits a path segment of a URL. *)
Definition delimiter (c : ascii) : bool :=
  nat_of_ascii c \in [:: 47; 58; 63; 35; 38; 61; 43; 32].

Definition hex_value (c : ascii) : option nat :=
  let n := nat_of_ascii c in
  if (48 <= n) && (n <= 57) then Some (n - 48)
  else if (65 <= n) && (n <= 70) then Some (n - 55)
  else None.

(* Reads back what encode_unit wrote at the front of a string. *)
Definition decode_first (s : string) : option (ascii * string) :=
  match s with
  | EmptyString => None
  | String "%" (String h1 (String h2 rest)) =>
      match hex_value h1, hex_value h2 with
      | Some a, Some b =>
          let n := 16 * a + b in
          if n < 128 then Some (ascii_of_nat n, rest)
          else match rest with
               | String "%" (String h3 (String h4 rest')) =>
                   match hex_value h3, hex_value h4 with
                   | Some c, Some d =>
                       Some (ascii_of_nat ((n - 192) * 64 + (16 * c + d - 128)),
                             rest')
                   | _, _ => None
                   end
               | _ => None
               end
      | _, _ => None
      end
  | String "%" _ => None
  | String c rest => Some (c, rest)
  end.

(* aspectRatio?: '1:1' | '4:3' | '16:9' | '21:9' *)
Inductive AspectRatio : Type :=
| ratio_1_1 | ratio_4_3 | ratio_16_9 | ratio_21_9.

Definition aspectRatioClasses (r : AspectRatio) : string :=
  match r with
  | ratio_1_1 => "aspect-square"
  | ratio_4_3 => "aspect-4/3"
  | ratio_16_9 => "aspect-video"
  | ratio_21_9 => "aspect-[21/9]"
  end.

(* rounded?: 'none' | 'sm' | 'md' | 'lg' | 'full' *)
Inductive Rounded : Type :=
| rounded_none | rounded_sm | rounded_md | rounded_lg | rounded_full.

Definition roundedClasses (r : Rounded) : string :=
  match r with
  | rounded_none => "rounded-none"
  | rounded_sm => "rounded-sm"
  | rounded_md => "rounded"
  | rounded_lg => "rounded-lg"
  | rounded_full => "rounded-full"
  end.

(* The props of Image that decide the container; None is a prop that was
   not passed. *)
Record Props : Type := mkProps {
  aspectRatio : option AspectRatio;
  rounded : option Rounded;
  backgroundImage : option bool;
  fill : option bool;
  className : option string;
  containerHeight : option string
}.

Definition or_default (T : Type) (v : option T) (d : T) : T :=
  if v is Some x then x else d.

(* ToBoolean on a string *)
Definition nonempty (s : string) : bool := negb (String.eqb s EmptyString).

(* fill && !containerHeight, after the defaults fill = false and
   containerHeight = '200px' *)
Definition default_height (p : Props) : bool :=
  let fill := or_default (fill p) false in
  let containerHeight := or_default (containerHeight p) "200px"%string in
  fill && ~~ nonempty containerHeight.

(* The arguments of cn(...) for the container that are not falsy, in
   order: cn drops the falsy ones. *)
Definition containerClasses (p : Props) : seq string :=
  [:: "relative overflow-hidden"%string]
  ++ (if default_height p then [:: "h-64"%string] else [::])
  ++ (if aspectRatio p is Some r then [:: aspectRatioClasses r] else [::])
  ++ [:: roundedClasses (or_default (rounded p) rounded_none)]
  ++ (if className p is Some c then (if nonempty c then [:: c] else [::])
      else [::]).

(* if (fill || backgroundImage || aspectRatio): the image is put in a
   container div and NextImage gets the fill prop *)
Definition in_container (p : Props) : bool :=
  [|| or_default (fill p) false, or_default (backgroundImage p) false
    | (if aspectRatio p is Some _ then true else false)].

(* containerStyles.height *)
Definition container_height (p : Props) : string :=
  or_default (containerHeight p) "200px"%string.

End Image.

(* --------------------------------------------------------------------- *)
(* Runs of events on AutocompeteMultiple                                  *)
(* --------------------------------------------------------------------- *)

(* The list is not longer than a maxSelected that the guard looks at. *)
Definition within_limit (maxSelected : option number) (selected : seq Option)
  : bool :=
  ~~ Multiple.exceeds maxSelected (length_of selected).

(* The value prop brings in no list above maxSelected. *)
Definition limit_kept (maxSelected : option number) (i : Multiple.Input) : bool :=
  match i with
  | Multiple.ValueChange (Some value) => within_limit maxSelected value
  | _ => true
  end.

(* The texts are typed one after the other, the delay never running out
   in between. *)
Definition typed (onSearch : option Multiple.SearchKind) (texts : seq string)
    (w : Multiple.World) : Multiple.World :=
  foldl (fun w v => Multiple.handleSearch onSearch v w) w texts.

(* The badges of the options are clicked away one after the other. *)
Definition clear_each (getOptionValue : Option -> OptionValue) (onChange : bool)
    (options : seq Option) (w : Multiple.World) : Multiple.World :=
  foldl (fun w x => Multiple.handleClearOption getOptionValue onChange x w)
        w options.

(* --------------------------------------------------------------------- *)
(* Sample options                                                         *)
(* --------------------------------------------------------------------- *)

Definition apple : Option := OStr "apple".
Definition banana : Option := ORec (mkOptionType (VNum (Num 7)) "Banana").
Definition cherry : Option := ORec (mkOptionType (VStr "c") "Cherry").
Definition blank : Option := OStr EmptyString.

(* --------------------------------------------------------------------- *)
(* 5. Facts about the values                                              *)
(* --------------------------------------------------------------------- *)

Lemma number_eq_dec (a b : number) : {a = b} + {a <> b}.
Proof. decide equality; exact: Z.eq_dec. Defined.

Lemma OptionValue_eq_dec (a b : OptionValue) : {a = b} + {a <> b}.
Proof. decide equality; [exact: string_dec | exact: number_eq_dec]. Defined.

Lemma Option_eq_dec (a b : Option) : {a = b} + {a <> b}.
Proof.
decide equality; first exact: string_dec.
decide equality; [exact: string_dec | exact: OptionValue_eq_dec].
Defined.

HB.instance Definition _ := hasDecEq.Build Option (compareP Option_eq_dec).

Example parseInt10_300px : parseInt10 "300px" = Some (Num 300).
Proof. by []. Qed.

Example parseInt10_signed : parseInt10 "  -42.5em" = Some (Num (-42)).
Proof. by []. Qed.

Example parseInt10_auto : parseInt10 "auto" = Some NaN.
Proof. by []. Qed.

Example parseInt10_long : parseInt10 "-9007199254740993px" = None.
Proof. by []. Qed.

Example toLowerCase_latin :
  toLowerCase (String (ascii_of_nat 201) "COLE") = String (ascii_of_nat 233) "cole".
Proof. by []. Qed.

(* The check of the specification for the virtualized list: 1000 items of
   35, a viewport of 300, overscan 5, no scrolling: the items 0 to 8. *)
Example getVirtualItems_top :
  [seq index v | v <- getVirtualItems 1000 35 5 0 300] = iota 0 9.
Proof. by vm_compute. Qed.

Example includes_mid : includes (toLowerCase "Banana") (toLowerCase "NAN") = true.
Proof. by []. Qed.

Lemma strict_eq_sym (a b : OptionValue) : (a === b) = (b === a).
Proof.
case: a => [s|[|x]]; case: b => [t|[|y]] //=.
- exact: String.eqb_sym.
- exact: Z.eqb_sym.
Qed.

Lemma strict_eq_trans (b a c : OptionValue) :
  a === b -> b === c -> a === c.
Proof.
case: a => [s|[|x]]; case: b => [t|[|y]]; case: c => [u|[|z]] //=.
- by move=> /String.eqb_spec -> /String.eqb_spec ->; rewrite String.eqb_refl.
- by move=> /Z.eqb_spec -> /Z.eqb_spec ->; rewrite Z.eqb_refl.
Qed.

(* x === x fails exactly for the number NaN. *)
Lemma strict_eq_refl (a : OptionValue) : (a === a) = (if a is VNum NaN then false else true).
Proof.
case: a => [s|[|x]] //=; [exact: String.eqb_refl | exact: Z.eqb_refl].
Qed.

Lemma prefix_empty (s : string) : String.prefix EmptyString s = true.
Proof. by case: s. Qed.

Lemma includes_empty (s : string) : includes s EmptyString = true.
Proof. by case: s. Qed.

(* --------------------------------------------------------------------- *)
(* 6. AutocompeteMultiple: select and the maxSelected guard               *)
(* --------------------------------------------------------------------- *)

Section MultipleSelect.

Import Multiple.

Variable onChange : bool.
Variable maxSelected : option number.

Lemma exceedsP (currentValue : seq Option) :
  reflect (over_limit maxSelected currentValue)
          (exceeds maxSelected (length_of currentValue)).
Proof.
rewrite /exceeds /over_limit /length_of; apply: (iffP idP).
- case: maxSelected => [[|m]|] //= /andP [/negP m0 /Z.ltb_lt lt_m].
  by exists m; split=> // m_eq; apply: m0; rewrite m_eq.
- case=> m [-> /Z.eqb_neq m0 /Z.ltb_lt lt_m] /=.
  by rewrite m0 lt_m.
Qed.

Lemma handleSelectOptions_blocked (currentValue : seq Option) (w : World) :
  exceeds maxSelected (length_of currentValue) ->
  handleSelectOptions onChange maxSelected currentValue w = w.
Proof. by rewrite /handleSelectOptions => ->. Qed.

Lemma handleSelectOptions_pass (currentValue : seq Option) (w : World) :
  exceeds maxSelected (length_of currentValue) = false ->
  handleSelectOptions onChange maxSelected currentValue w
    = replaced onChange currentValue w.
Proof.
rewrite /handleSelectOptions /replaced => ->.
rewrite /seq_action /call_onChange /focus.
by case: onChange; rewrite /emit /skip /= -?cats1 -?catA.
Qed.

(** C1 (as amended): select(options) does nothing (same state, no call of
    onChange) when maxSelected is a number other than 0 and options is
    longer than maxSelected. In every other case, maxSelected = 0 among
    them, the selection becomes options, the search text becomes empty,
    onChange (when one was passed) is called once with options, and the
    input is focused. *)
Theorem select_guard (currentValue : seq Option) (w : World) :
  (over_limit maxSelected currentValue ->
     handleSelectOptions onChange maxSelected currentValue w = w) /\
  (~ over_limit maxSelected currentValue ->
     handleSelectOptions onChange maxSelected currentValue w
       = replaced onChange currentValue w).
Proof.
split.
- by move/exceedsP; exact: handleSelectOptions_blocked.
- by move/exceedsP/negbTE; exact: handleSelectOptions_pass.
Qed.

End MultipleSelect.

(** C10: with maxSelected = 0 the guard never applies: for a list of any
    length select replaces the selection, clears the search text and calls
    onChange, since 0 is falsy and the length test is not reached. *)
Theorem select_max_zero (onChange : bool) (currentValue : seq Option)
    (w : Multiple.World) :
  Multiple.exceeds (Some (Num 0)) (length_of currentValue) = false /\
  Multiple.handleSelectOptions onChange (Some (Num 0)) currentValue w
    = Multiple.replaced onChange currentValue w.
Proof. by split=> //; exact: handleSelectOptions_pass. Qed.

Lemma select_guard_witness :
  Multiple.handleSelectOptions true (Some (Num 2)) [:: apple; banana; cherry]
    (Multiple.mount None) = Multiple.mount None /\
  Multiple.selectedOptions
    (Multiple.handleSelectOptions true (Some (Num 2)) [:: apple; banana]
       (Multiple.mount None)) = [:: apple; banana].
Proof.
split.
- apply: (proj1 (select_guard true (Some (Num 2)) [:: apple; banana; cherry] _)).
  by exists 2%Z; split.
- rewrite (proj2 (select_guard true (Some (Num 2)) [:: apple; banana] _)) //.
  by case=> m [[<-]] _ /=; lia.
Defined.

(* C1 as the specification has it fails when maxSelected is 0: one option
   is more than 0, and yet the selection is replaced and onChange called. *)
Lemma select_max_zero_counterexample :
  let w := Multiple.mount None in
  let w' := Multiple.handleSelectOptions true (Some (Num 0)) [:: apple] w in
  [/\ number_gt (length_of [:: apple]) (Num 0),
      Multiple.selectedOptions w' = [:: apple],
      Multiple.calls w' = [:: Multiple.onChange_called [:: apple];
                              Multiple.input_focused]
    & w' <> w].
Proof. by split. Qed.

(* --------------------------------------------------------------------- *)
(* 7. AutocompeteMultiple: clearOne, toggle and the keys of the selection *)
(* --------------------------------------------------------------------- *)

Section MultipleSelection.

Import Multiple.

Variable getOptionValue : Option -> OptionValue.
Variable disabled : bool.
Variable onChange : bool.
Variable maxSelected : option number.

Local Abbreviation isSelected := (isSelected getOptionValue).
Local Abbreviation without := (without getOptionValue).
Local Abbreviation unique_keys := (unique_keys getOptionValue).
Local Abbreviation toggle := (handleSelectOption getOptionValue disabled onChange maxSelected).
Local Abbreviation select := (handleSelectOptions onChange maxSelected).
Local Abbreviation clearOne := (handleClearOption getOptionValue onChange).

Lemma isSelected_without (x : Option) (s : seq Option) :
  isSelected x (without x s) = false.
Proof.
apply/negbTE/hasPn => item.
by rewrite mem_filter => /andP [].
Qed.

Lemma without_absent (x : Option) (s : seq Option) :
  isSelected x s = false -> without x s = s.
Proof.
move/negbT; rewrite -all_predC => all_ne.
exact/all_filterP.
Qed.

Lemma without_subseq (x : Option) (s : seq Option) : subseq (without x s) s.
Proof. exact: filter_subseq. Qed.

Lemma size_without (x : Option) (s : seq Option) : size (without x s) <= size s.
Proof. by rewrite size_filter count_size. Qed.

Lemma size_without_present (x : Option) (s : seq Option) :
  isSelected x s -> size (without x s) < size s.
Proof.
rewrite /Multiple.isSelected has_count => pos.
rewrite size_filter -(count_predC (fun item => getOptionValue item === getOptionValue x) s).
by rewrite -[X in X < _]add0n ltn_add2r.
Qed.

Lemma unique_without (x : Option) (s : seq Option) :
  unique_keys s -> unique_keys (without x s).
Proof. exact: pairwise_filter. Qed.

Lemma unique_rcons (x : Option) (s : seq Option) :
  unique_keys s -> isSelected x s = false -> unique_keys (rcons s x).
Proof.
rewrite /Multiple.unique_keys pairwise_rcons => -> /negbT.
by rewrite -all_predC andbT.
Qed.

Lemma exceeds_le (a b : Z) :
  (a <= b)%Z -> exceeds maxSelected (Num b) = false ->
  exceeds maxSelected (Num a) = false.
Proof.
rewrite /exceeds => le_ab.
case: maxSelected => [[|k]|] //=.
case: (negb _) => //=.
by move=> /Z.ltb_ge le_b; apply/Z.ltb_ge; lia.
Qed.

Lemma exceeds_size (T : Type) (s t : seq T) :
  size s <= size t -> exceeds maxSelected (length_of t) = false ->
  exceeds maxSelected (length_of s) = false.
Proof. by move=> /leP le_st; apply: exceeds_le; lia. Qed.

Lemma selectedOptions_select (currentValue : seq Option) (w : World) :
  selectedOptions (select currentValue w)
    = if exceeds maxSelected (length_of currentValue) then selectedOptions w
      else currentValue.
Proof.
case: ifP => [blocked|pass].
- by rewrite handleSelectOptions_blocked.
- by rewrite handleSelectOptions_pass.
Qed.

(* toggle is select on the list with the option taken out or put last. *)
Lemma toggle_as_select (x : Option) (w : World) :
  disabled = false ->
  toggle x w
    = select (if isSelected x (selectedOptions w)
              then without x (selectedOptions w)
              else rcons (selectedOptions w) x) w.
Proof. by rewrite /handleSelectOption => ->. Qed.

Lemma clearOne_world (x : Option) (w : World) :
  clearOne x w
    = mkWorld (open w) (without x (selectedOptions w)) (loading w)
              (searchValue w) (debounced w) (unsettled w)
              (calls w
               ++ (if onChange
                   then [:: onChange_called (without x (selectedOptions w))]
                   else [::])
               ++ [:: input_focused]).
Proof.
rewrite /handleClearOption /seq_action /call_onChange /focus.
by case: onChange; rewrite /emit /skip /setSelectedOptions /= -?cats1 -?catA.
Qed.

(** C7 (as amended): clearOne(x) removes exactly the entries whose key
    matches x's: what is left is the old selection, in its order, without
    them. When no entry matches, the selection is the same afterwards and
    nothing fails. The call is still not without effect: onChange (when one
    was passed) is called with the selection that is left and the input is
    focused, whether or not an entry matched. *)
Theorem clearOne_removes (x : Option) (w : World) :
  let w' := clearOne x w in
  [/\ selectedOptions w' = without x (selectedOptions w),
      subseq (selectedOptions w') (selectedOptions w),
      isSelected x (selectedOptions w') = false,
      (forall item, (item \in selectedOptions w') =
                    (getOptionValue item !== getOptionValue x)
                    && (item \in selectedOptions w))
    & isSelected x (selectedOptions w) = false ->
      selectedOptions w' = selectedOptions w] /\
  calls w' = calls w
             ++ (if onChange then [:: onChange_called (selectedOptions w')]
                 else [::])
             ++ [:: input_focused].
Proof.
rewrite clearOne_world /=; split=> //; split=> //.
- exact: without_subseq.
- exact: isSelected_without.
- by move=> item; rewrite mem_filter.
- exact: without_absent.
Qed.

(* Taking x out and putting it last keeps the same keys selected. *)
Lemma isSelected_moved_last (x y : Option) (s : seq Option) :
  isSelected x s ->
  isSelected y (rcons (without x s) x) = isSelected y s.
Proof.
move=> /hasP [item0 in0 key0].
rewrite /Multiple.isSelected has_rcons; apply/idP/idP.
- case/orP => [key_xy|/hasP [item]].
  + by apply/hasP; exists item0 => //; exact: strict_eq_trans key_xy.
  + by rewrite mem_filter => /andP [_ in_s] key; apply/hasP; exists item.
- case/hasP => item in_s key.
  case same: (getOptionValue item === getOptionValue x).
  + apply/orP; left; apply: strict_eq_trans key.
    by rewrite strict_eq_sym.
  + apply/orP; right; apply/hasP; exists item => //.
    by rewrite mem_filter same.
Qed.

Lemma without_rcons_self (x : Option) (s : seq Option) :
  getOptionValue x === getOptionValue x -> isSelected x s = false ->
  without x (rcons s x) = s.
Proof.
move=> refl_x absent.
by rewrite /Multiple.without filter_rcons refl_x /=; exact: without_absent.
Qed.

(** C3 (as amended): with the control enabled, toggle(x) is select on the
    selection with x's entries taken out (x's key is selected) or with x
    put last (it is not). For a selection within maxSelected and an x whose
    key equals itself (any key but NaN), toggle(x) twice gives back a
    selection with the same keys selected. It is the same sequence when
    x's key was not selected; when it was, the entries of that key are
    gone and x is the last entry, so the order need not be the old one. *)
Theorem toggle_twice (x : Option) (w : World) :
  getOptionValue x === getOptionValue x ->
  exceeds maxSelected (length_of (selectedOptions w)) = false ->
  let w2 := toggle x (toggle x w) in
  [/\ forall y, isSelected y (selectedOptions w2)
                = isSelected y (selectedOptions w),
      isSelected x (selectedOptions w) = false ->
        selectedOptions w2 = selectedOptions w,
      isSelected x (selectedOptions w) -> disabled = false ->
        selectedOptions w2 = rcons (without x (selectedOptions w)) x
    & disabled = false ->
      toggle x w = select (if isSelected x (selectedOptions w)
                           then without x (selectedOptions w)
                           else rcons (selectedOptions w) x) w].
Proof.
move=> refl_x within.
case/orP: (orbN disabled) => [off|on].
  have idle v : toggle x v = v by rewrite /handleSelectOption off.
  by rewrite !idle; split=> //; rewrite off.
have enabled : disabled = false by apply/negbTE.
have sel1 : selectedOptions (toggle x w)
    = if isSelected x (selectedOptions w) then without x (selectedOptions w)
      else if exceeds maxSelected (length_of (rcons (selectedOptions w) x))
           then selectedOptions w else rcons (selectedOptions w) x.
  rewrite toggle_as_select // selectedOptions_select.
  case: (isSelected x (selectedOptions w)) => //.
  by rewrite (exceeds_size (size_without x _) within).
have key : selectedOptions (toggle x (toggle x w))
    = if isSelected x (selectedOptions w)
      then rcons (without x (selectedOptions w)) x
      else selectedOptions w.
  rewrite toggle_as_select // selectedOptions_select sel1.
  case present: (isSelected x (selectedOptions w)).
  - rewrite isSelected_without.
    have -> // : exceeds maxSelected
                   (length_of (rcons (without x (selectedOptions w)) x)) = false.
    apply: exceeds_size within.
    by rewrite size_rcons; exact: size_without_present.
  - case blocked: (exceeds maxSelected (length_of (rcons (selectedOptions w) x))).
    + by rewrite present blocked.
    + rewrite /Multiple.isSelected has_rcons refl_x /=.
      by rewrite (without_rcons_self refl_x present) within.
split.
- move=> y; rewrite /= key.
  by case: ifP => // present; exact: isSelected_moved_last.
- by move=> absent; rewrite /= key absent.
- by move=> present _; rewrite /= key present.
- by move=> _; exact: toggle_as_select.
Qed.

End MultipleSelection.

Lemma clearOne_removes_witness :
  Multiple.selectedOptions
    (Multiple.handleClearOption default_getOptionValue true banana
       (Multiple.mount (Some [:: apple; cherry]))) = [:: apple; cherry].
Proof.
have [[_ _ _ _ same] _] :=
  clearOne_removes default_getOptionValue true banana
    (Multiple.mount (Some [:: apple; cherry])).
exact: same.
Defined.

(* C7 as the specification has it: clearing an option that is not selected
   is not a call without effect, onChange is called and the input focused. *)
Lemma clearOne_absent_counterexample :
  let w := Multiple.mount (Some [:: apple]) in
  let w' := Multiple.handleClearOption default_getOptionValue true banana w in
  [/\ Multiple.isSelected default_getOptionValue banana
        (Multiple.selectedOptions w) = false,
      Multiple.calls w = [::],
      Multiple.calls w' = [:: Multiple.onChange_called [:: apple];
                              Multiple.input_focused]
    & w' <> w].
Proof. by split. Qed.

Lemma toggle_twice_witness :
  let w := Multiple.mount (Some [:: apple; banana]) in
  let toggle :=
    Multiple.handleSelectOption default_getOptionValue false true None in
  Multiple.selectedOptions (toggle apple (toggle apple w)) = [:: banana; apple] /\
  Multiple.selectedOptions (toggle cherry (toggle cherry w)) = [:: apple; banana].
Proof.
split.
- have [_ _ moved _] :=
    @toggle_twice default_getOptionValue false true None apple
      (Multiple.mount (Some [:: apple; banana])) (erefl true) (erefl false).
  exact: (moved (erefl true) (erefl false)).
- have [_ kept _ _] :=
    @toggle_twice default_getOptionValue false true None cherry
      (Multiple.mount (Some [:: apple; banana])) (erefl true) (erefl false).
  exact: (kept (erefl false)).
Defined.

(* C3 as the specification has it: toggling a selected option twice moves
   it to the end, and from a selection above maxSelected (set through the
   value prop) the second toggle is refused and the option is lost. *)
Lemma toggle_twice_counterexample :
  let toggle max :=
    Multiple.handleSelectOption default_getOptionValue false true max in
  let w := Multiple.mount (Some [:: apple; banana]) in
  let v := Multiple.mount (Some [:: apple; banana; cherry]) in
  let w2 := toggle None apple (toggle None apple w) in
  let v2 := toggle (Some (Num 2)) apple (toggle (Some (Num 2)) apple v) in
  [/\ Multiple.selectedOptions w2 = [:: banana; apple],
      [seq default_getOptionValue o | o <- Multiple.selectedOptions w2]
        <> [seq default_getOptionValue o | o <- Multiple.selectedOptions w],
      Multiple.selectedOptions v2 = [:: banana; cherry]
    & Multiple.isSelected default_getOptionValue apple (Multiple.selectedOptions v2)
        <> Multiple.isSelected default_getOptionValue apple (Multiple.selectedOptions v)].
Proof. by split. Qed.

(* --------------------------------------------------------------------- *)
(* 8. The value prop                                                      *)
(* --------------------------------------------------------------------- *)

(** C4 (as amended): when the value prop changes to an option other than
    the empty string, Autocomplete overwrites its selection with that
    option, and when it changes to an absent or null value Autocomplete
    ends with nothing selected. AutocompeteMultiple overwrites its
    selection with every new value that is present, the empty list
    included; when the new value is absent its effect does nothing and the
    selection stays as it was. *)
Theorem value_resync :
  [/\ forall (value : seq Option) (w : Multiple.World),
        Multiple.selectedOptions (Multiple.value_effect (Some value) w) = value,
      forall w : Multiple.World, Multiple.value_effect None w = w,
      forall (value : option Option) (w : Single.World),
        Single.present value ->
        Single.selectedOption (Single.value_effect value w) = value
    & forall w : Single.World,
        Single.selectedOption (Single.value_effect None w) = None].
Proof.
split=> //.
by move=> value w; rewrite /Single.value_effect => ->.
Qed.

Lemma value_resync_witness :
  Single.selectedOption
    (Single.value_effect (Some banana) (Single.mount [:: apple; banana]))
  = Some banana /\
  Multiple.selectedOptions
    (Multiple.value_effect (Some [::]) (Multiple.mount (Some [:: apple])))
  = [::].
Proof.
have [multi _ single _] := value_resync.
split; [exact: (single (Some banana) _ (erefl true)) | exact: multi].
Defined.

(* C4 as the specification has it: the value prop of AutocompeteMultiple
   goes from [apple] to absent, and apple stays selected, where a component
   mounted without a value has nothing selected. *)
Lemma value_absent_counterexample :
  let w := Multiple.mount (Some [:: apple]) in
  Multiple.selectedOptions (Multiple.value_effect None w) = [:: apple] /\
  Multiple.selectedOptions (Multiple.value_effect None w)
    <> Multiple.selectedOptions (Multiple.mount None).
Proof. by split. Qed.

(* --------------------------------------------------------------------- *)
(* 9. Autocomplete: activating an option                                  *)
(* --------------------------------------------------------------------- *)

Section SingleSelect.

Import Single.

Variable getOptionLabel : Option -> string.
Variable getOptionValue : Option -> OptionValue.
Variable onChange : bool.

Local Abbreviation activate := (handleSelectOption getOptionLabel getOptionValue onChange).

(* With a selected option and an activated option that are not the empty
   string, activation does what the specification says. *)
Lemma activate_truthy (currentValue : Option) (w : World) :
  (if selectedOption w is Some selected then truthy selected else true) ->
  truthy currentValue ->
  let same :=
    if selectedOption w is Some selected
    then getOptionValue selected === getOptionValue currentValue else false in
  let newValue := if same then None else Some currentValue in
  activate currentValue w
    = mkWorld false newValue
        (if same then EmptyString else getOptionLabel currentValue)
        (filteredOptions w) (searchValue w)
        (calls w ++ (if onChange then [:: onChange_called newValue] else [::])).
Proof.
rewrite /handleSelectOption /seq_action /call_onChange.
case: (selectedOption w) => [selected|] /= => [-> | _] truthy_cur /=.
- case: (_ === _) => /=; rewrite ?truthy_cur;
    by case: onChange; rewrite /emit /skip /= -?cats1 ?cats0.
- by rewrite truthy_cur; case: onChange; rewrite /emit /skip /= -?cats1 ?cats0.
Qed.

End SingleSelect.

(** C6 (the code at the failing input): the options are strings and the
    empty string is one of them. Activating it selects it; activating it
    again, its key equal to the selected key, leaves it selected and calls
    onChange with it, where the specification has the selection cleared and
    onChange called with null. *)
Theorem reselect_empty_string :
  let activate :=
    Single.handleSelectOption default_getOptionLabel default_getOptionValue true in
  let w1 := activate blank (Single.mount [:: blank; apple]) in
  let w2 := activate blank w1 in
  [/\ Single.selectedOption w1 = Some blank,
      default_getOptionValue blank === default_getOptionValue blank,
      Single.selectedOption w2 = Some blank
    & Single.calls w2 = [:: Single.onChange_called (Some blank);
                            Single.onChange_called (Some blank)]].
Proof. by split. Qed.

(* --------------------------------------------------------------------- *)
(* 10. The filter stage and the height of the list                        *)
(* --------------------------------------------------------------------- *)

Lemma default_filterOption_empty (getOptionLabel : Option -> string)
    (option : Option) :
  default_filterOption getOptionLabel option EmptyString = true.
Proof. by rewrite /default_filterOption /= includes_empty. Qed.

(** C8: with the default filter (lower-cased label contains the lower-cased
    search term) the filter stage of both components gives a subsequence of
    the option list, in the order of the list, for every list and search
    term, and the whole list for the empty search term, which every option
    matches. The filter is a total function of the option and the search
    term: the same arguments give the same answer and no call fails. *)
Theorem filter_stage (getOptionLabel : Option -> string)
    (options : seq Option) (searchValue : string) (w : Single.World) :
  let filterOption := default_filterOption getOptionLabel in
  [/\ subseq (Multiple.filteredOptions filterOption options searchValue) options,
      Multiple.filteredOptions filterOption options EmptyString = options
    & forall option, filterOption option EmptyString = true] /\
  [/\ subseq (Single.filteredOptions
                (Single.handleSearch options filterOption searchValue w)) options,
      Single.filteredOptions
        (Single.handleSearch options filterOption EmptyString w) = options
    & subseq (Single.filteredOptions
                (Single.list_mounted options filterOption w)) options].
Proof.
have all_empty : [seq option <- options
                 | default_filterOption getOptionLabel option EmptyString] = options.
  by apply/all_filterP/allP => option _; exact: default_filterOption_empty.
split; split=> //.
- exact: filter_subseq.
- exact: default_filterOption_empty.
- exact: filter_subseq.
- rewrite /Single.list_mounted; case: String.eqb => /=; first exact: subseq_refl.
  exact: filter_subseq.
Qed.

Lemma Single_listHeight (height : string) (w : Single.World) :
  Single.listHeight height w = Multiple.listHeight height (Single.filteredOptions w).
Proof. by []. Qed.

Lemma Single_rows (virtualOptions : seq VirtualItem) (w : Single.World) :
  Single.rows virtualOptions w
    = Multiple.rows virtualOptions (Single.filteredOptions w).
Proof. by []. Qed.

Lemma getVirtualItems_in_range (itemCount : nat)
    (itemSize overscan scrollOffset viewportHeight : Z) :
  all (fun v => index v < itemCount)
      (getVirtualItems itemCount itemSize overscan scrollOffset viewportHeight).
Proof.
rewrite /getVirtualItems all_map.
apply/allP => i /=; rewrite mem_filter mem_iota => /andP [_].
by rewrite add0n => /andP [].
Qed.

(** C9 (as amended): in both components the height of the list container is
    Math.min(h, itemCount * 35), h being Number.parseInt(height, 10). When
    the height prop starts with an integer h (of at most 2^53 in size,
    where parseInt gives the integer itself), this is the smaller of h and
    itemCount * 35, never more than itemCount * 35, and 0 for no item
    provided h is not negative. When the height prop has no leading integer
    the container height is NaN. With no item the virtualizer, as the
    specification describes it, gives no item and no row is rendered,
    whatever the scroll offset and the viewport. *)
Theorem list_height (height : string) (filtered : seq Option)
    (scrollOffset viewportHeight : Z) (w : Single.World) :
  let n := Z.of_nat (size filtered) in
  [/\ forall h, parseInt10 height = Some (Num h) ->
        Multiple.listHeight height filtered = Some (Num (Z.min h (n * 35)))
        /\ (Z.min h (n * 35) <= n * 35)%Z,
      forall h, parseInt10 height = Some (Num h) -> (0 <= h)%Z ->
        filtered = [::] ->
        Multiple.listHeight height filtered = Some (Num 0),
      parseInt10 height = Some NaN ->
        Multiple.listHeight height filtered = Some NaN
    & filtered = [::] ->
      getVirtualItems (size filtered) 35 5 scrollOffset viewportHeight = [::] /\
      Multiple.rows
        (getVirtualItems (size filtered) 35 5 scrollOffset viewportHeight)
        filtered = [::]] /\
  [/\ Single.listHeight height w
        = Multiple.listHeight height (Single.filteredOptions w),
      forall virtualOptions,
        Single.rows virtualOptions w
          = Multiple.rows virtualOptions (Single.filteredOptions w)
    & Single.filteredOptions w = [::] ->
      Single.rows
        (getVirtualItems (size (Single.filteredOptions w)) 35 5
           scrollOffset viewportHeight) w = [::]].
Proof.
split; last by split=> // ->.
rewrite /Multiple.listHeight; split.
- by move=> h -> /=; split=> //; lia.
- by move=> h -> h0 -> /=; congr (Some (Num _)); lia.
- by move=> ->.
- by move=> ->.
Qed.

Lemma list_height_witness :
  Multiple.listHeight "300px" [:: apple; banana] = Some (Num 70) /\
  Multiple.listHeight "300px" [::] = Some (Num 0) /\
  Multiple.rows (getVirtualItems 0 35 5 140 300) [::] = [::].
Proof.
have [[min_h _ _ _] _] :=
  list_height "300px" [:: apple; banana] 140 300 (Single.mount [::]).
have [[_ zero _ no_rows] _] :=
  list_height "300px" [::] 140 300 (Single.mount [::]).
split; first by have [-> _] := min_h 300%Z (erefl _).
split; first by apply: (zero 300%Z).
by have [_ ->] := no_rows (erefl _).
Defined.

(* C9 as the specification has it: with no item the container height is
   not 0 for a height prop without a leading integer, or a negative one. *)
Lemma list_height_counterexample :
  [/\ Multiple.listHeight "auto" [::] = Some NaN,
      Multiple.listHeight "auto" [::] <> Some (Num 0),
      Multiple.listHeight "-20px" [::] = Some (Num (-20))
    & Single.listHeight "auto" (Single.mount [::]) = Some NaN].
Proof. by split. Qed.

(* --------------------------------------------------------------------- *)
(* 11. AutocompeteMultiple: the loading flag around onSearch              *)
(* --------------------------------------------------------------------- *)

Section MultipleSearch.

Import Multiple.

Variable getOptionValue : Option -> OptionValue.
Variable disabled : bool.
Variable onChange : bool.
Variable maxSelected : option number.
Variable onSearch : option SearchKind.

Local Abbreviation step := (step getOptionValue disabled onChange maxSelected onSearch).
Local Abbreviation run := (run getOptionValue disabled onChange maxSelected onSearch).

Lemma search_now_world (v : string) (w : World) :
  search_now onSearch v w
    = mkWorld (open w) (selectedOptions w) false (searchValue w) (debounced w)
        (if onSearch is Some Asynchronous then rcons (unsettled w) v
         else unsettled w)
        (if onSearch is Some _ then rcons (calls w) (onSearch_called v true)
         else calls w).
Proof.
rewrite /search_now /seq_action /call_onSearch.
by case: onSearch => [[]|].
Qed.

Lemma step_loading (i : Input) (w : World) :
  loading w = false -> loading (step i w) = false.
Proof.
case: i => [b|[value|]|option|options|option| |v| |k] idle; rewrite /Multiple.step //.
- rewrite /handleSelectOption; case: disabled => //.
  set newSelected := (if _ then _ else _).
  case blocked: (exceeds maxSelected (length_of newSelected)).
  + by rewrite handleSelectOptions_blocked.
  + by rewrite handleSelectOptions_pass.
- case blocked: (exceeds maxSelected (length_of options)).
  + by rewrite handleSelectOptions_blocked.
  + by rewrite handleSelectOptions_pass.
- by rewrite clearOne_world.
- by rewrite /handleClearAll /seq_action /call_onChange; case: onChange.
- by rewrite /handleSearch /seq_action; case: onSearch.
- by rewrite /delay_elapsed; case: (debounced w).
Qed.

Lemma step_calls (i : Input) (w : World) :
  all during_loading (calls w) -> all during_loading (calls (step i w)).
Proof.
case: i => [b|[value|]|option|options|option| |v| |k] ok; rewrite /Multiple.step //.
- rewrite /handleSelectOption; case: disabled => //.
  set newSelected := (if _ then _ else _).
  case blocked: (exceeds maxSelected (length_of newSelected)).
  + by rewrite handleSelectOptions_blocked.
  + rewrite handleSelectOptions_pass //= !all_cat ok /=.
    by case: onChange.
- case blocked: (exceeds maxSelected (length_of options)).
  + by rewrite handleSelectOptions_blocked.
  + rewrite handleSelectOptions_pass //= !all_cat ok /=.
    by case: onChange.
- by rewrite clearOne_world /= !all_cat ok /=; case: onChange.
- rewrite /handleClearAll /seq_action /call_onChange /focus.
  by case: onChange; rewrite /emit /skip /= !all_rcons /= ok.
- by rewrite /handleSearch /seq_action; case: onSearch.
- rewrite /delay_elapsed; case: (debounced w) => [v|] //.
  rewrite /seq_action search_now_world /=.
  by case: onSearch => [_|] //; rewrite all_rcons.
Qed.

(** C5 (as amended): the loading flag is set to true just before the
    external search callback is called and back to false as soon as the
    call returns, in the same handler. So every call of onSearch is made
    with loading true, and after every event loading is false, also while
    asynchronous searches are unsettled. The component runs no code when a
    search settles: the settlement of any search, stale or latest, changes
    neither loading nor the calls made. *)
Theorem loading_bracket (inputs : seq Input) (w : World) :
  loading w = false -> all during_loading (calls w) ->
  [/\ loading (run inputs w) = false,
      all during_loading (calls (run inputs w)),
      forall v, debounced w = Some v -> onSearch = Some Asynchronous ->
        [/\ calls (delay_elapsed onSearch w)
              = rcons (calls w) (onSearch_called v true),
            unsettled (delay_elapsed onSearch w) = rcons (unsettled w) v
          & loading (delay_elapsed onSearch w) = false]
    & forall k, loading (search_settled k w) = loading w /\
                calls (search_settled k w) = calls w].
Proof.
move=> idle ok; split=> //.
- elim: inputs w idle {ok} => [|i inputs IH] w idle //=.
  by apply: IH; exact: step_loading.
- elim: inputs w ok {idle} => [|i inputs IH] w ok //=.
  by apply: IH; exact: step_calls.
- move=> v waiting async.
  by rewrite /delay_elapsed waiting /seq_action search_now_world async.
Qed.

End MultipleSearch.

(* Three keystrokes inside one delay: one call of onSearch, with the last
   text. *)
Example burst_fires_once :
  Multiple.calls
    (Multiple.run default_getOptionValue false true None
       (Some Multiple.Synchronous)
       [:: Multiple.Typed "a"; Multiple.Typed "ab"; Multiple.Typed "abc";
           Multiple.DelayElapsed; Multiple.DelayElapsed]
       (Multiple.mount None))
  = [:: Multiple.onSearch_called "abc" true].
Proof. by []. Qed.

(* Activating an option twice in the single select clears the selection. *)
Example reselect_apple :
  let activate :=
    Single.handleSelectOption default_getOptionLabel default_getOptionValue true in
  let w := activate apple (activate apple (Single.mount [:: apple; banana])) in
  Single.selectedOption w = None /\
  Single.calls w = [:: Single.onChange_called (Some apple);
                       Single.onChange_called None].
Proof. by []. Qed.

Lemma loading_bracket_witness :
  let w := Multiple.handleSearch (Some Multiple.Asynchronous) "ab"
             (Multiple.mount None) in
  Multiple.loading
    (Multiple.run default_getOptionValue false true None
       (Some Multiple.Asynchronous)
       [:: Multiple.DelayElapsed; Multiple.Typed "abc"; Multiple.DelayElapsed] w)
    = false /\
  Multiple.calls (Multiple.delay_elapsed (Some Multiple.Asynchronous) w)
    = [:: Multiple.onSearch_called "ab" true].
Proof.
have [idle _ dispatch _] :=
  @loading_bracket default_getOptionValue false true None
    (Some Multiple.Asynchronous)
    [:: Multiple.DelayElapsed; Multiple.Typed "abc"; Multiple.DelayElapsed]
    (Multiple.handleSearch (Some Multiple.Asynchronous) "ab" (Multiple.mount None))
    (erefl false) (erefl true).
split; first exact: idle.
by have [-> _ _] := dispatch "ab"%string (erefl _) (erefl _).
Defined.

(* C5 as the specification has it: two asynchronous searches are sent and
   none has settled, yet loading is false; the older one settles, the newer
   one is still unsettled, and loading is false as before. *)
Lemma loading_counterexample :
  let run := Multiple.run default_getOptionValue false true None
               (Some Multiple.Asynchronous) in
  let w := run [:: Multiple.Typed "a"; Multiple.DelayElapsed;
                   Multiple.Typed "ab"; Multiple.DelayElapsed]
               (Multiple.mount None) in
  let w' := run [:: Multiple.Settled 0] w in
  [/\ Multiple.unsettled w = [:: "a"; "ab"]%string,
      Multiple.loading w = false,
      Multiple.unsettled w' = [:: "ab"%string]
    & Multiple.loading w' = false].
Proof. by split. Qed.

(* --------------------------------------------------------------------- *)
(* 12. AutocompeteMultiple: the keys of the selection stay distinct       *)
(* --------------------------------------------------------------------- *)

Section MultipleInvariant.

Import Multiple.

Variable getOptionValue : Option -> OptionValue.
Variable disabled : bool.
Variable onChange : bool.
Variable maxSelected : option number.
Variable onSearch : option SearchKind.

Local Abbreviation isSelected := (isSelected getOptionValue).
Local Abbreviation without := (without getOptionValue).
Local Abbreviation unique_keys := (unique_keys getOptionValue).
Local Abbreviation toggle := (handleSelectOption getOptionValue disabled onChange maxSelected).
Local Abbreviation select := (handleSelectOptions onChange maxSelected).
Local Abbreviation clearOne := (handleClearOption getOptionValue onChange).
Local Abbreviation step := (step getOptionValue disabled onChange maxSelected onSearch).
Local Abbreviation run := (run getOptionValue disabled onChange maxSelected onSearch).

Lemma selectedOptions_toggle (x : Option) (w : World) :
  selectedOptions (toggle x w)
    = if disabled then selectedOptions w
      else selectedOptions
             (select (if isSelected x (selectedOptions w)
                      then without x (selectedOptions w)
                      else rcons (selectedOptions w) x) w).
Proof. by rewrite /handleSelectOption; case: disabled. Qed.

Lemma toggle_unique (x : Option) (w : World) :
  unique_keys (selectedOptions w) -> unique_keys (selectedOptions (toggle x w)).
Proof.
move=> uniq_w; rewrite selectedOptions_toggle; case: disabled => //.
rewrite selectedOptions_select; case: ifP => // _.
case: ifP => [_|absent]; first exact: unique_without.
exact: unique_rcons.
Qed.

Lemma step_unique (i : Input) (w : World) :
  well_keyed getOptionValue i ->
  unique_keys (selectedOptions w) -> unique_keys (selectedOptions (step i w)).
Proof.
case: i => [b|[value|]|option|options|option| |v| |k] keyed uniq_w;
  rewrite /Multiple.step //.
- exact: toggle_unique.
- by rewrite selectedOptions_select; case: ifP.
- by rewrite clearOne_world /=; exact: unique_without.
- by rewrite /handleClearAll /seq_action /call_onChange; case: onChange.
- by rewrite /handleSearch /seq_action; case: onSearch.
- rewrite /delay_elapsed; case: (debounced w) => [v|] //.
  by rewrite /seq_action search_now_world.
Qed.


End MultipleInvariant.



(* --------------------------------------------------------------------- *)
(* 13. AutocompeteMultiple: more on the selection                         *)
(* --------------------------------------------------------------------- *)

Section MultipleMore.

Import Multiple.

Variable getOptionValue : Option -> OptionValue.
Variable disabled : bool.
Variable onChange : bool.
Variable maxSelected : option number.
Variable onSearch : option SearchKind.

Local Abbreviation isSelected := (isSelected getOptionValue).
Local Abbreviation without := (without getOptionValue).
Local Abbreviation toggle := (handleSelectOption getOptionValue disabled onChange maxSelected).
Local Abbreviation select := (handleSelectOptions onChange maxSelected).
Local Abbreviation clearOne := (handleClearOption getOptionValue onChange).
Local Abbreviation step := (step getOptionValue disabled onChange maxSelected onSearch).
Local Abbreviation run := (run getOptionValue disabled onChange maxSelected onSearch).
Local Abbreviation within := (within_limit maxSelected).

Lemma select_within (currentValue : seq Option) (w : World) :
  within (selectedOptions w) -> within (selectedOptions (select currentValue w)).
Proof.
move=> within_w; rewrite selectedOptions_select.
case blocked: (exceeds maxSelected (length_of currentValue)) => //.
by rewrite /within_limit blocked.
Qed.

Lemma step_within (i : Input) (w : World) :
  limit_kept maxSelected i ->
  within (selectedOptions w) -> within (selectedOptions (step i w)).
Proof.
case: i => [b|[value|]|option|options|option| |v| |k] kept within_w;
  rewrite /Multiple.step //.
- by rewrite selectedOptions_toggle; case: disabled => //; exact: select_within.
- exact: select_within.
- rewrite clearOne_world /= /within_limit.
  by rewrite (exceeds_size (size_without _ _ _) (negbTE within_w)).
- have -> : selectedOptions (handleClearAll onChange w) = [::].
    by rewrite /handleClearAll /seq_action /call_onChange; case: onChange.
  by rewrite /within_limit (@exceeds_size _ _ _ (selectedOptions w)) // (negbTE within_w).
- by rewrite /handleSearch /seq_action; case: onSearch.
- rewrite /delay_elapsed; case: (debounced w) => [v|] //.
  by rewrite /seq_action search_now_world.
Qed.

(** X1: a selection within maxSelected stays within it along every run of
    events (toggle, select, clearOne, clearAll, typing, the search delay,
    open and close), as long as the value prop brings in no list above
    maxSelected; the value prop itself is stored without the check. *)
Theorem selection_within_limit (inputs : seq Input) (w : World) :
  within (selectedOptions w) ->
  all (limit_kept maxSelected) inputs ->
  within (selectedOptions (run inputs w)).
Proof.
elim: inputs w => [|i inputs IH] w within_w //= /andP [kept_i kept].
by apply: IH kept; exact: step_within.
Qed.

Lemma isSelected_without_other (x y : Option) (s : seq Option) :
  (getOptionValue x === getOptionValue y) = false ->
  isSelected y (without x s) = isSelected y s.
Proof.
move=> other; apply/hasP/hasP => [[item]|[item in_s key]].
- by rewrite mem_filter => /andP [_ in_s] key; exists item.
- exists item => //; rewrite mem_filter in_s andbT.
  apply/negP => same; move: other.
  by rewrite (strict_eq_trans _ key) // strict_eq_sym.
Qed.

(** X2: toggle(x) touches the check mark of x's key only. The mark of an
    option y whose key differs from x's is the same before and after; and
    when the toggle goes through (control enabled, list within
    maxSelected, x's key not NaN) the mark of x is turned over. *)
Theorem toggle_marks (x y : Option) (w : World) :
  ((getOptionValue x === getOptionValue y) = false ->
   isSelected y (selectedOptions (toggle x w))
     = isSelected y (selectedOptions w)) /\
  (disabled = false ->
   getOptionValue x === getOptionValue x ->
   within (if isSelected x (selectedOptions w)
           then without x (selectedOptions w)
           else rcons (selectedOptions w) x) ->
   isSelected x (selectedOptions (toggle x w))
     = ~~ isSelected x (selectedOptions w)).
Proof.
split.
- move=> other; rewrite selectedOptions_toggle; case: disabled => //.
  rewrite selectedOptions_select; case: ifP => // _.
  case: ifP => _; first exact: isSelected_without_other.
  by rewrite /Multiple.isSelected has_rcons other.
- move=> enabled refl_x /negbTE pass.
  rewrite selectedOptions_toggle enabled selectedOptions_select pass.
  case present: (isSelected x (selectedOptions w)).
  + by rewrite isSelected_without.
  + by rewrite /Multiple.isSelected has_rcons refl_x.
Qed.

(** X3: clearOne is idempotent and two clearOne calls commute, as far as
    the selection goes: clearing x twice leaves what clearing it once
    leaves, and clearing x and y leaves the same entries in either order. *)
Theorem clearOne_twice_and_swap (x y : Option) (w : World) :
  selectedOptions (clearOne x (clearOne x w)) = selectedOptions (clearOne x w) /\
  selectedOptions (clearOne x (clearOne y w))
    = selectedOptions (clearOne y (clearOne x w)).
Proof.
rewrite !clearOne_world /= /Multiple.without; split.
- by rewrite filter_id.
- by rewrite -!filter_predI; apply: eq_filter => item /=; rewrite andbC.
Qed.

(** X4: clearOne undoes an adding toggle. When x's key is not selected and
    toggle(x) goes through (control enabled, one more entry allowed, key
    not NaN), clearOne(x) afterwards gives back the selection as it was. *)
Theorem clearOne_undoes_toggle (x : Option) (w : World) :
  disabled = false ->
  getOptionValue x === getOptionValue x ->
  isSelected x (selectedOptions w) = false ->
  within (rcons (selectedOptions w) x) ->
  selectedOptions (toggle x w) = rcons (selectedOptions w) x /\
  selectedOptions (clearOne x (toggle x w)) = selectedOptions w.
Proof.
move=> enabled refl_x absent /negbTE pass.
have added : selectedOptions (toggle x w) = rcons (selectedOptions w) x.
  by rewrite selectedOptions_toggle enabled selectedOptions_select absent pass.
split=> //.
by rewrite clearOne_world /= added; exact: without_rcons_self.
Qed.

(** X5: an option whose key is NaN is never found selected. Its check mark
    is off in every selection, clearOne on it removes nothing (it cannot be
    taken out through its badge), and every toggle that goes through
    appends one more copy of it. *)
Theorem nan_key_never_matches (x : Option) (w : World) :
  getOptionValue x = VNum NaN ->
  [/\ forall s, isSelected x s = false,
      selectedOptions (clearOne x w) = selectedOptions w
    & disabled = false -> within (rcons (selectedOptions w) x) ->
      selectedOptions (toggle x w) = rcons (selectedOptions w) x].
Proof.
move=> nan_x.
have never s : isSelected x s = false.
  apply/negbTE/hasPn => item _; rewrite nan_x.
  by case: (getOptionValue item) => [t|[|z]].
split=> //.
- by rewrite clearOne_world /=; exact: without_absent.
- move=> enabled /negbTE pass.
  by rewrite selectedOptions_toggle enabled selectedOptions_select never pass.
Qed.

Lemma selectedOptions_clear_each (xs : seq Option) (w : World) :
  selectedOptions (clear_each getOptionValue onChange xs w)
    = [seq item <- selectedOptions w
      | all (fun x => getOptionValue item !== getOptionValue x) xs].
Proof.
elim: xs w => [|x xs IH] w /=; first by rewrite filter_predT.
rewrite IH clearOne_world /= /Multiple.without -filter_predI.
by apply: eq_filter => item /=; rewrite andbC.
Qed.

(** X6: when no selected key is NaN, clearing the selected options one by
    one through their badges ends with the empty selection, the selection
    clearAll leaves in one step. *)
Theorem clear_each_is_clearAll (w : World) :
  all (fun x => getOptionValue x === getOptionValue x) (selectedOptions w) ->
  selectedOptions (clear_each getOptionValue onChange (selectedOptions w) w) = [::] /\
  selectedOptions (handleClearAll onChange w) = [::].
Proof.
move=> refl_all; split; last first.
  by rewrite /handleClearAll /seq_action /call_onChange; case: onChange.
rewrite selectedOptions_clear_each.
apply/eqP; rewrite -[_ == _]negbK -has_filter; apply/hasPn => item in_s.
apply/allPn; exists item => //.
by rewrite negbK (allP refl_all).
Qed.

End MultipleMore.

Lemma selection_within_limit_witness :
  within_limit (Some (Num 2))
    (Multiple.selectedOptions
       (Multiple.run default_getOptionValue false true (Some (Num 2)) None
          [:: Multiple.Activate apple; Multiple.Activate banana;
              Multiple.Activate cherry; Multiple.ClearOne apple;
              Multiple.ValueChange (Some [:: cherry])]
          (Multiple.mount None))).
Proof.
exact: (@selection_within_limit default_getOptionValue false true
          (Some (Num 2)) None
          [:: Multiple.Activate apple; Multiple.Activate banana;
              Multiple.Activate cherry; Multiple.ClearOne apple;
              Multiple.ValueChange (Some [:: cherry])]
          (Multiple.mount None) (erefl true) (erefl true)).
Defined.

Lemma toggle_marks_witness :
  Multiple.isSelected default_getOptionValue apple
    (Multiple.selectedOptions
       (Multiple.handleSelectOption default_getOptionValue false true None
          banana (Multiple.mount (Some [:: apple])))) = true /\
  Multiple.isSelected default_getOptionValue banana
    (Multiple.selectedOptions
       (Multiple.handleSelectOption default_getOptionValue false true None
          banana (Multiple.mount (Some [:: apple])))) = true.
Proof.
have [other _] :=
  @toggle_marks default_getOptionValue false true None banana apple
    (Multiple.mount (Some [:: apple])).
have [_ flips] :=
  @toggle_marks default_getOptionValue false true None banana banana
    (Multiple.mount (Some [:: apple])).
split.
- exact: (etrans (other (erefl false)) (erefl true)).
- exact: (etrans (flips (erefl false) (erefl true) (erefl true)) (erefl true)).
Defined.

Lemma clearOne_undoes_toggle_witness :
  let w := Multiple.mount (Some [:: apple]) in
  Multiple.selectedOptions
    (Multiple.handleClearOption default_getOptionValue true banana
       (Multiple.handleSelectOption default_getOptionValue false true
          (Some (Num 2)) banana w)) = [:: apple].
Proof.
have [_ back] :=
  @clearOne_undoes_toggle default_getOptionValue false true (Some (Num 2))
    banana (Multiple.mount (Some [:: apple]))
    (erefl false) (erefl true) (erefl false) (erefl true).
exact: back.
Defined.

Lemma nan_key_never_matches_witness :
  let ghost := ORec (mkOptionType (VNum NaN) "ghost") in
  let w := Multiple.mount (Some [:: ghost]) in
  Multiple.selectedOptions
    (Multiple.handleClearOption default_getOptionValue true ghost w) = [:: ghost] /\
  Multiple.selectedOptions
    (Multiple.handleSelectOption default_getOptionValue false true None ghost w)
  = [:: ghost; ghost].
Proof.
have [_ stays grows] :=
  @nan_key_never_matches default_getOptionValue false true None
    (ORec (mkOptionType (VNum NaN) "ghost"))
    (Multiple.mount (Some [:: ORec (mkOptionType (VNum NaN) "ghost")]))
    (erefl _).
split; first exact: stays.
exact: (grows (erefl false) (erefl true)).
Defined.

Lemma clear_each_is_clearAll_witness :
  let w := Multiple.mount (Some [:: apple; banana; cherry]) in
  Multiple.selectedOptions
    (clear_each default_getOptionValue true (Multiple.selectedOptions w) w)
  = [::].
Proof.
have [each _] :=
  @clear_each_is_clearAll default_getOptionValue true
    (Multiple.mount (Some [:: apple; banana; cherry])) (erefl true).
exact: each.
Defined.

(* --------------------------------------------------------------------- *)
(* 14. AutocompeteMultiple: typing and the delayed search                 *)
(* --------------------------------------------------------------------- *)

Section MultipleTyping.

Import Multiple.

Variable onChange : bool.
Variable maxSelected : option number.
Variable kind : SearchKind.

Local Abbreviation onSearch := (Some kind).

Lemma handleSearch_world (v : string) (w : World) :
  handleSearch onSearch v w
    = mkWorld (open w) (selectedOptions w) (loading w) v (Some v)
              (unsettled w) (calls w).
Proof. by []. Qed.

Lemma typed_rcons (texts : seq string) (v : string) (w : World) :
  typed onSearch (rcons texts v) w
    = mkWorld (open w) (selectedOptions w) (loading w) v (Some v)
              (unsettled w) (calls w).
Proof.
elim: texts w => [|t texts IH] w //.
by rewrite /typed /= -/(typed onSearch (rcons texts v) _) IH.
Qed.

(** X7: with an onSearch callback, a burst of keystrokes inside one delay
    shows the last text at once and calls nothing; when the delay runs out
    onSearch is called once, with the last text, and a further expiry
    without typing calls nothing more. *)
Theorem burst_one_search (texts : seq string) (v : string) (w : World) :
  let w' := typed onSearch (rcons texts v) w in
  [/\ searchValue w' = v,
      calls w' = calls w,
      calls (delay_elapsed onSearch w') = rcons (calls w) (onSearch_called v true)
    & delay_elapsed onSearch (delay_elapsed onSearch w')
        = delay_elapsed onSearch w'].
Proof.
by rewrite typed_rcons; case: kind; split.
Qed.

(** X8: a select that goes through empties the search text but leaves the
    waiting search alone: when the delay runs out onSearch is still called
    with the text typed before the select, which the input no longer
    shows. *)
Theorem select_keeps_waiting_search (v : string) (currentValue : seq Option)
    (w : World) :
  within_limit maxSelected currentValue ->
  let w' := handleSelectOptions onChange maxSelected currentValue
              (handleSearch onSearch v w) in
  [/\ selectedOptions w' = currentValue,
      searchValue w' = EmptyString
    & calls (delay_elapsed onSearch w')
        = rcons (calls w') (onSearch_called v true)].
Proof.
move=> /negbTE pass.
rewrite handleSelectOptions_pass // handleSearch_world.
by case: kind; split.
Qed.

End MultipleTyping.

Lemma select_keeps_waiting_search_witness :
  let w := Multiple.handleSelectOptions true (Some (Num 3)) [:: apple]
             (Multiple.handleSearch (Some Multiple.Synchronous) "app"
                (Multiple.mount None)) in
  Multiple.searchValue w = EmptyString /\
  Multiple.calls (Multiple.delay_elapsed (Some Multiple.Synchronous) w)
    = [:: Multiple.onChange_called [:: apple]; Multiple.input_focused;
          Multiple.onSearch_called "app" true].
Proof.
have [_ cleared fired] :=
  @select_keeps_waiting_search true (Some (Num 3)) Multiple.Synchronous
    "app"%string [:: apple] (Multiple.mount None) (erefl true).
split; first exact: cleared.
exact: fired.
Defined.

(* --------------------------------------------------------------------- *)
(* 15. Autocomplete: activating twice, reopening the list                 *)
(* --------------------------------------------------------------------- *)

Lemma prefix_refl (s : string) : String.prefix s s = true.
Proof. by elim: s => [|c s IH] //=; case: ascii_dec. Qed.

Lemma includes_refl (s : string) : includes s s = true.
Proof. by case: s => [|c s] //=; case: ascii_dec => //= _; rewrite prefix_refl. Qed.

Section SingleMore.

Import Single.

Variable options : seq Option.
Variable getOptionLabel : Option -> string.
Variable getOptionValue : Option -> OptionValue.
Variable onChange : bool.

Local Abbreviation activate := (handleSelectOption getOptionLabel getOptionValue onChange).
Local Abbreviation filterOption := (default_filterOption getOptionLabel).
Local Abbreviation reopen :=
  (step options getOptionLabel getOptionValue filterOption onChange (OpenChange true)).

Local Abbreviation key_selected := (key_selected getOptionValue).

Lemma activate_fields (x : Option) (w : World) :
  truthy x ->
  [/\ selectedOption (activate x w) = if key_selected x w then None else Some x,
      initialSearch (activate x w)
        = (if key_selected x w then EmptyString else getOptionLabel x),
      open (activate x w) = false,
      filteredOptions (activate x w) = filteredOptions w
    & searchValue (activate x w) = searchValue w].
Proof.
move=> truthy_x.
rewrite /handleSelectOption /Single.key_selected /seq_action /call_onChange.
by case: (selectedOption w) => [selected|] /=;
   [case: (_ && _) => /= |]; rewrite ?truthy_x; case: onChange.
Qed.

(** X9: activating the same option twice in a row (an option other than
    the empty string, its key not NaN) ends closed, with the option
    selected when its key was selected before the two activations and with
    nothing selected otherwise: a different option that was selected
    before is not brought back. The text for the next search is the
    option's label in the first case and empty in the second. *)
Theorem activate_twice (x : Option) (w : World) :
  truthy x -> getOptionValue x === getOptionValue x ->
  let w2 := activate x (activate x w) in
  [/\ selectedOption w2 = if key_selected x w then Some x else None,
      initialSearch w2
        = (if key_selected x w then getOptionLabel x else EmptyString)
    & open w2 = false].
Proof.
move=> truthy_x refl_x.
have [sel2 search2 closed2 _ _] := activate_fields (activate x w) truthy_x.
have [sel1 _ _ _ _] := activate_fields w truthy_x.
have second : key_selected x (activate x w) = ~~ key_selected x w.
  rewrite {1}/Single.key_selected sel1; case: (key_selected x w) => //=.
  by rewrite truthy_x refl_x.
rewrite /= sel2 search2 closed2 second.
by case: (key_selected x w).
Qed.

Lemma initialSearch_activate (x : Option) (w : World) :
  initialSearch (activate x w)
    = if key_selected x w then EmptyString
      else if truthy x then getOptionLabel x else EmptyString.
Proof.
rewrite /handleSelectOption /Single.key_selected /seq_action /call_onChange.
by case: (selectedOption w) => [selected|] /=;
   [case: (_ && _) => /= |]; case: onChange.
Qed.

(** X10: the list reopened after an activation. When the activation of an
    option x of the option list selected it, the reopened list has x's
    label as its search text (the empty text when x is the empty string,
    whatever its label) and, with the default filter, shows the options
    whose lower-cased label contains that text lower-cased, x among them.
    When the activation cleared the selection, the reopened list has an
    empty search text and shows the whole option list. *)
Theorem reopen_after_activate (x : Option) (w : World) :
  let w' := reopen (activate x w) in
  let text := if truthy x then getOptionLabel x else EmptyString in
  (key_selected x w = false ->
   [/\ open w', searchValue w' = text,
       filteredOptions w' = [seq o <- options | filterOption o text]
     & x \in options -> x \in filteredOptions w']) /\
  (key_selected x w ->
   [/\ open w', searchValue w' = EmptyString & filteredOptions w' = options]).
Proof.
rewrite /= /seq_action /list_mounted /= initialSearch_activate.
split=> [-> | ->] //.
set text := (if truthy x then _ else _).
have matches : filterOption x text.
  rewrite /text; case: (truthy x); last exact: default_filterOption_empty.
  by rewrite /default_filterOption includes_refl.
have shown : x \in options -> x \in [seq o <- options | filterOption o text].
  by move=> in_o; rewrite mem_filter in_o matches.
case: String.eqb_spec => [empty|_] /=; last by split.
split=> //; rewrite empty.
by apply/esym/all_filterP/allP => o _; exact: default_filterOption_empty.
Qed.

End SingleMore.

Lemma activate_twice_witness :
  let activate :=
    Single.handleSelectOption default_getOptionLabel default_getOptionValue true in
  let w := Single.value_effect (Some banana) (Single.mount [:: apple; banana]) in
  Single.selectedOption (activate apple (activate apple w)) = None.
Proof.
have [lost _ _] :=
  @activate_twice default_getOptionLabel default_getOptionValue true apple
    (Single.value_effect (Some banana) (Single.mount [:: apple; banana]))
    (erefl true) (erefl true).
exact: lost.
Defined.

Lemma reopen_after_activate_witness :
  let w := Single.step [:: apple; banana; cherry]
             default_getOptionLabel default_getOptionValue
             (default_filterOption default_getOptionLabel) true
             (Single.OpenChange true)
             (Single.handleSelectOption default_getOptionLabel
                default_getOptionValue true banana
                (Single.mount [:: apple; banana; cherry])) in
  Single.filteredOptions w = [:: banana].
Proof.
have [shown _] :=
  @reopen_after_activate [:: apple; banana; cherry] default_getOptionLabel
    default_getOptionValue true banana
    (Single.mount [:: apple; banana; cherry]).
have [_ _ filtered _] := shown (erefl false).
exact: filtered.
Defined.

(* --------------------------------------------------------------------- *)
(* 16. Modal: buttons, submission and closing                             *)
(* --------------------------------------------------------------------- *)

Section ModalButtons.

Import Modal.

Lemma renderButtons_configured (b : ButtonConfig) (bs : seq ButtonConfig)
    (isSubmitting isForm onClose : bool) :
  renderButtons (Some (b :: bs)) isSubmitting isForm onClose
    = [seq render_button isSubmitting onClose c | c <- b :: bs].
Proof. by []. Qed.

(** X11: a configured button without onClick gets the close handler only
    when its type is given as 'button': a click on it closes the modal. A
    button whose type is left out is rendered with type 'button' all the
    same, but has no click handler and, being of type 'button', no default
    action: a click on it does nothing, in a form modal or outside. A reset
    button does nothing to the modal either. A submit button has no click
    handler: a click on it does nothing outside a form and while the form
    is submitting (it is disabled), and otherwise submits the form, which
    runs handleSubmit when the form is valid. *)
Theorem untyped_button_click (onClose isSubmitting in_form : bool)
    (submission : option Outcome) (b : ButtonConfig) (w : World) :
  onClick b = None ->
  let r := render_button isSubmitting true b in
  [/\ button_onClick r = Some close <-> type b = Some button,
      type b = Some button ->
        press onClose in_form submission r w = handleOpenChange onClose false w,
      type b = None ->
        button_type r = button /\ press onClose in_form submission r w = w,
      type b = Some reset -> press onClose in_form submission r w = w
    & type b = Some submit ->
        press onClose in_form submission r w
          = if in_form && ~~ isSubmitting
            then (if submission is Some outcome
                  then handleSubmit onClose outcome w else w)
            else w].
Proof.
rewrite /render_button /press /run_onClick /seq_action => -> /=.
case: (type b) => [[]|] /=; rewrite ?andbF /=; split=> //.
by move=> _; case: isSubmitting; case: in_form; case: submission.
Qed.

(** X12: of the buttons a Modal renders, configured or default, the ones
    that are disabled are exactly the buttons of type 'submit' of a form
    modal while the form is submitting. The Close button and every button
    of a modal without a form are never disabled. *)
Theorem disabled_while_submitting (has_onSubmit has_validationSchema : bool)
    (buttons : option (seq ButtonConfig)) (isSubmitting : bool) :
  all (fun r => button_disabled r
                == [&& isFormModal has_onSubmit has_validationSchema,
                       isSubmitting & is_submit (button_type r)])
      (modal_buttons has_onSubmit has_validationSchema buttons isSubmitting).
Proof.
rewrite /modal_buttons.
case: (isFormModal _ _) => /=; case: buttons => [[|b bs]|];
  rewrite ?renderButtons_configured ?all_map /= ?andbT //.
- by rewrite andbF !eqxx.
- apply/andP; split; first by case: (type b) => [[]|].
  by apply: (@sub_all _ predT) (all_predT bs) => c _ /=; case: (type c) => [[]|]; rewrite ?andbF.
- by rewrite andbF !eqxx.
- by apply: (@sub_all _ predT) (all_predT bs) => c _ /=; case: (type c) => [[]|]; rewrite ?andbF.
Qed.

(** X13: the buttons a Modal shows. With no configured button (the list
    left out or empty) it shows a Close button, also when the Modal has no
    onClose prop, and after it a Submit button only in a form modal. With
    one configured button or more it shows the configured ones, in their
    order, and neither Close nor Submit. *)
Theorem modal_button_labels (has_onSubmit has_validationSchema : bool)
    (buttons : option (seq ButtonConfig)) (isSubmitting : bool) :
  [seq children r
  | r <- modal_buttons has_onSubmit has_validationSchema buttons isSubmitting]
  = if buttons is Some (b :: bs) then [seq label c | c <- b :: bs]
    else "Close"%string ::
         (if isFormModal has_onSubmit has_validationSchema
          then [:: if isSubmitting then "Submitting..."%string
                   else "Submit"%string]
          else [::]).
Proof.
rewrite /modal_buttons.
by case: (isFormModal _ _); case: buttons => [[|b bs]|] //;
   rewrite renderButtons_configured -map_comp.
Qed.

Variable onClose : bool.

Lemma log_handleOpenChange (open : bool) (w : World) :
  log (handleOpenChange onClose open w)
    = log w ++ (if ~~ open && onClose then [:: onClose_called] else [::]).
Proof.
rewrite /handleOpenChange /seq_action.
by case: open; case: onClose; rewrite /emit /skip /= -?cats1 ?cats0.
Qed.

Lemma log_handleSubmit (outcome : Outcome) (w : World) :
  log (handleSubmit onClose outcome w)
    = log w ++ onSubmit_called ::
        (match outcome with
         | fulfilled => if onClose then [:: onClose_called] else [::]
         | rejected error => [:: console_error error]
         end).
Proof.
rewrite /handleSubmit /seq_action; case: outcome => [|error].
- by rewrite log_handleOpenChange /= -cats1 -catA.
- by rewrite /emit /= -!cats1 -catA.
Qed.

Lemma log_click (b : Button) (w : World) :
  log (run_onClick onClose b w)
    = log w ++ (if button_disabled b then [::]
                else match button_onClick b with
                     | Some (caller f) => [:: caller_called f]
                     | Some close => if onClose then [:: onClose_called] else [::]
                     | None => [::]
                     end).
Proof.
rewrite /run_onClick; case: (button_disabled b); first by rewrite /skip cats0.
case: (button_onClick b) => [[f|]|]; rewrite /skip ?cats0 //.
- by rewrite /emit /= cats1.
- by rewrite log_handleOpenChange.
Qed.

Lemma step_onClose_count (i : Input) (w : World) :
  count is_onClose (log (step onClose i w))
    = count is_onClose (log w) + (onClose && closes i).
Proof.
case: i => [v|open|outcome|b]; rewrite /Modal.step.
- by rewrite /isOpen_effect andbF addn0; case: v.
- by rewrite log_handleOpenChange count_cat andbC; case: open; case: onClose.
- rewrite log_handleSubmit count_cat /=.
  by case: outcome => [|error]; case: onClose.
- rewrite log_click count_cat /=.
  case: (button_disabled b) => /=; first by rewrite andbF.
  by case: (button_onClick b) => [[f|]|]; case: onClose.
Qed.

(** X14: a submission that is fulfilled closes the modal and calls the
    onClose prop (when one was passed) once. A submission that is rejected
    is caught: the error is logged, onClose is not called and the modal
    stays as it was, open if it was open. *)
Theorem submit_outcomes (error : string) (w : World) :
  handleSubmit onClose fulfilled w
    = mkWorld false
        (log w ++ onSubmit_called
               :: (if onClose then [:: onClose_called] else [::])) /\
  handleSubmit onClose (rejected error) w
    = mkWorld (internalIsOpen w)
        (log w ++ [:: onSubmit_called; console_error error]).
Proof.
have open_false : internalIsOpen (handleOpenChange onClose false
                                    (emit onSubmit_called w)) = false.
  by rewrite /handleOpenChange /seq_action; case: onClose.
split.
- move: (log_handleSubmit fulfilled w) open_false.
  rewrite /handleSubmit /seq_action.
  by case: (handleOpenChange _ _ _) => isOpen lg /= -> ->.
- by rewrite /handleSubmit /seq_action /emit /= -!cats1 -catA.
Qed.

(** X15: along every run of events on a Modal with an onClose prop, onClose
    is called once for each request to close (the dialog reporting it
    closes, a fulfilled submission, a click on an enabled button wired to
    close), whether or not the modal was open, and for nothing else: a
    change of the isOpen prop, opening, a rejected submission and the other
    clicks call it never. Without the prop nothing is called. *)
Theorem onClose_per_close_request (inputs : seq Input) (w : World) :
  count is_onClose (log (run onClose inputs w))
    = count is_onClose (log w) + (if onClose then count closes inputs else 0).
Proof.
elim: inputs w => [|i inputs IH] w /=; first by case: onClose; rewrite addn0.
rewrite -/(run onClose inputs _) IH step_onClose_count -addnA.
by case: onClose => //=; rewrite add0n.
Qed.

End ModalButtons.

Lemma untyped_button_click_witness :
  Modal.press true true (Some Modal.fulfilled)
    (Modal.render_button false true (Modal.mkButtonConfig "Cancel" None None None))
    (Modal.mkWorld true [::]) = Modal.mkWorld true [::] /\
  Modal.press true true (Some Modal.fulfilled)
    (Modal.render_button false true
       (Modal.mkButtonConfig "Cancel" None None (Some Modal.button)))
    (Modal.mkWorld true [::]) = Modal.mkWorld false [:: Modal.onClose_called] /\
  Modal.press true true (Some Modal.fulfilled)
    (Modal.render_button false true
       (Modal.mkButtonConfig "Save" None None (Some Modal.submit)))
    (Modal.mkWorld true [::])
  = Modal.mkWorld false [:: Modal.onSubmit_called; Modal.onClose_called].
Proof.
have [_ _ untyped _ _] :=
  @untyped_button_click true false true (Some Modal.fulfilled)
    (Modal.mkButtonConfig "Cancel" None None None)
    (Modal.mkWorld true [::]) (erefl _).
have [_ typed _ _ _] :=
  @untyped_button_click true false true (Some Modal.fulfilled)
    (Modal.mkButtonConfig "Cancel" None None (Some Modal.button))
    (Modal.mkWorld true [::]) (erefl _).
have [_ _ _ _ submits] :=
  @untyped_button_click true false true (Some Modal.fulfilled)
    (Modal.mkButtonConfig "Save" None None (Some Modal.submit))
    (Modal.mkWorld true [::]) (erefl _).
split; first by have [_ ->] := untyped (erefl _).
split; first by rewrite (typed (erefl _)).
by rewrite (submits (erefl _)).
Defined.

(* --------------------------------------------------------------------- *)
(* 17. The store registry: resetAllStores                                 *)
(* --------------------------------------------------------------------- *)

Section StoreReset.

Import Store.

Variable T : Type.

Local Abbreviation World := (World T).
Local Abbreviation Input := (Input T).

Local Abbreviation registered := (@registered T).

Lemma size_update (id : nat) (f : Store T -> Store T) (s : seq (Store T)) :
  size (update id f s) = size s.
Proof. by elim: s id => [|x s IH] [|id] //=; rewrite IH. Qed.

Lemma map_update (U : Type) (g : Store T -> U) (id : nat)
    (f : Store T -> Store T) (s : seq (Store T)) :
  (forall x, g (f x) = g x) -> map g (update id f s) = map g s.
Proof.
by move=> same; elim: s id => [|x s IH] [|id] //=; rewrite ?same ?IH.
Qed.

Lemma foldl_update_shift (f : Store T -> Store T) (x : Store T)
    (s : seq (Store T)) (ids : seq nat) :
  foldl (fun st id => update id f st) (x :: s) [seq id.+1 | id <- ids]
    = x :: foldl (fun st id => update id f st) s ids.
Proof. by elim: ids s => [|id ids IH] s //=; rewrite IH. Qed.

Lemma foldl_update_iota (f : Store T -> Store T) (s : seq (Store T)) :
  foldl (fun st id => update id f st) s (iota 0 (size s)) = map f s.
Proof.
elim: s => [|x s IH] //=.
by rewrite -[1]/(1 + 0) iotaDl foldl_update_shift IH.
Qed.

Lemma size_resets (f : Store T -> Store T) (ids : seq nat) (s : seq (Store T)) :
  size (foldl (fun st id => update id f st) s ids) = size s.
Proof. by elim: ids s => [|id ids IH] s //=; rewrite IH size_update. Qed.

Lemma resetAllStores_registered (w : World) :
  registered w ->
  resetAllStores w = mkWorld (map (@resetFn T) (stores w)) (storeResetFns w).
Proof. by rewrite /resetAllStores => ->; rewrite foldl_update_iota. Qed.

Lemma step_registered (i : Input) (w : World) :
  registered w -> registered (step i w).
Proof.
rewrite /Store.registered; case: i => [init|id f|] /= reg.
- by rewrite reg size_rcons -cats1 -[(size _).+1]addn1 iotaD add0n.
- by rewrite size_update.
- by rewrite size_resets.
Qed.

Lemma run_registered (inputs : seq Input) (w : World) :
  registered w -> registered (run inputs w).
Proof.
elim: inputs w => [|i inputs IH] w reg //=.
by apply: IH; exact: step_registered.
Qed.

Lemma size_run (inputs : seq Input) (w : World) :
  size (stores (run inputs w))
    = size (stores w) + count (@is_create T) inputs.
Proof.
elim: inputs w => [|i inputs IH] w /=; first by rewrite addn0.
rewrite -/(run inputs _) IH addnA; congr (_ + _).
case: i => [init|id f|] /=.
- by rewrite size_rcons addn1.
- by rewrite size_update addn0.
- by rewrite size_resets addn0.
Qed.

(** X16: resetAllStores puts every store made through the create wrapper
    back to the state it had when it was made. Whatever creations, state
    changes and earlier resets have happened, after resetAllStores the
    state of each store is its initial state; no store is added or dropped,
    and the number of stores is the number of create calls. *)
Theorem reset_restores (inputs : seq Input) :
  let w := run inputs (empty T) in
  [/\ map (@state T) (stores (resetAllStores w))
        = map (@initialState T) (stores w),
      map (@initialState T) (stores (resetAllStores w))
        = map (@initialState T) (stores w)
    & size (stores w) = count (@is_create T) inputs].
Proof.
have reg : registered (run inputs (empty T)) by exact: run_registered.
by cbv zeta; rewrite resetAllStores_registered //= -!map_comp size_run.
Qed.

Lemma stores_no_create (inputs : seq Input) (w : World) :
  registered w -> has (@is_create T) inputs = false ->
  map (@resetFn T) (stores (run inputs w)) = map (@resetFn T) (stores w).
Proof.
elim: inputs w => [|i inputs IH] w reg //= /negbT /norP [not_create /negbTE none].
rewrite -/(run inputs _) (IH _ (step_registered i reg) none).
case: i not_create => [init|id f|] //= _.
- by rewrite map_update.
- move: reg; rewrite /Store.registered => ->.
  by rewrite foldl_update_iota -map_comp.
Qed.

Lemma registry_no_create (inputs : seq Input) (w : World) :
  has (@is_create T) inputs = false ->
  storeResetFns (run inputs w) = storeResetFns w.
Proof.
elim: inputs w => [|i inputs IH] w //=.
by case: i => [init|id f|] //= none; rewrite -/(run inputs _) IH.
Qed.

(** X17: a second resetAllStores changes nothing, and more generally:
    after any state changes and resets that create no store, resetAllStores
    gives the same stores as resetAllStores before them. What a reset
    restores does not depend on what happened to the states since the
    stores were made. *)
Theorem reset_forgets (inputs changes : seq Input) :
  has (@is_create T) changes = false ->
  let w := run inputs (empty T) in
  resetAllStores (run changes w) = resetAllStores w /\
  resetAllStores (resetAllStores w) = resetAllStores w.
Proof.
move=> no_create.
have reg : registered (run inputs (empty T)) by exact: run_registered.
have same changes' : has (@is_create T) changes' = false ->
    resetAllStores (run changes' (run inputs (empty T)))
      = resetAllStores (run inputs (empty T)).
  move=> none.
  rewrite (resetAllStores_registered (run_registered changes' reg)).
  rewrite (resetAllStores_registered reg).
  by rewrite stores_no_create // registry_no_create.
split; first exact: same.
exact: (same [:: ResetAll T]).
Qed.

End StoreReset.

Lemma reset_forgets_witness :
  let w := Store.run [:: Store.Create 1; Store.Create 2;
                         Store.SetState 0 (fun _ => 5)] (Store.empty nat) in
  Store.resetAllStores
    (Store.run [:: Store.SetState 1 succn; Store.ResetAll nat;
                   Store.SetState 0 succn] w)
  = Store.resetAllStores w.
Proof.
have [same _] :=
  @reset_forgets nat
    [:: Store.Create 1; Store.Create 2; Store.SetState 0 (fun _ => 5)]
    [:: Store.SetState 1 succn; Store.ResetAll nat; Store.SetState 0 succn]
    (erefl false).
exact: same.
Defined.

(* --------------------------------------------------------------------- *)
(* 18. Image: the CDN address and the container                           *)
(* --------------------------------------------------------------------- *)

Example encodeURIComponent_url :
  Image.encodeURIComponent "https://a.b/c d?x=1"
  = "https%3A%2F%2Fa.b%2Fc%20d%3Fx%3D1"%string.
Proof. by []. Qed.

Example encodeURIComponent_latin :
  Image.encodeURIComponent (String (ascii_of_nat 233) EmptyString)
  = "%C3%A9"%string.
Proof. by []. Qed.

Section ImageAddress.

Import Image.

Lemma all_units_append (p : ascii -> bool) (s t : string) :
  all_units p (append s t) = all_units p s && all_units p t.
Proof. by elim: s => [|c s IH] //=; rewrite IH andbA. Qed.

Lemma encode_unit_safe (c : ascii) :
  all_units (fun u => ~~ delimiter u) (encode_unit c).
Proof. by case: c => [[] [] [] [] [] [] [] []]. Qed.

Lemma encodeURIComponent_safe (s : string) :
  all_units (fun u => ~~ delimiter u) (encodeURIComponent s).
Proof.
by elim: s => [|c s IH] //=; rewrite all_units_append encode_unit_safe.
Qed.

Lemma decode_first_encode (c : ascii) (rest : string) :
  decode_first (append (encode_unit c) rest) = Some (c, rest).
Proof. by case: c => [[] [] [] [] [] [] [] []]. Qed.

Lemma encodeURIComponent_inj (s t : string) :
  encodeURIComponent s = encodeURIComponent t -> s = t.
Proof.
elim: s t => [|c s IH] [|d t] //=.
- by move/(congr1 decode_first); rewrite decode_first_encode.
- by move/(congr1 decode_first); rewrite decode_first_encode.
- move/(congr1 decode_first); rewrite !decode_first_encode.
  by case=> -> /IH ->.
Qed.

Lemma append_inj (p s t : string) : append p s = append p t -> s = t.
Proof. by elim: p => [|c p IH] //= [] /IH. Qed.

(** X18: getImageUrl rewrites a source only when useCdn is set and the
    source starts with http:// or https://; every other source, a
    relative path among them, comes back as it is. A rewritten address is
    the CDN domain (the text undefined when the environment variable is
    not set), a slash, and the encoded source, in which none of the
    characters / : ? # & = + and no space is left: the source is one path
    segment of the CDN address. *)
Theorem getImageUrl_shape (cdnDomain : option string) (src : string)
    (useCdn : bool) :
  (useCdn && absolute src ->
   getImageUrl cdnDomain src useCdn
     = append (template cdnDomain) (String "/" (encodeURIComponent src)) /\
   all_units (fun u => ~~ delimiter u) (encodeURIComponent src)) /\
  (useCdn && absolute src = false -> getImageUrl cdnDomain src useCdn = src).
Proof.
rewrite /getImageUrl; split=> [->|->] //.
by split=> //; exact: encodeURIComponent_safe.
Qed.

(** X19: with one CDN domain, two different absolute sources never get the
    same CDN address: encodeURIComponent loses nothing of the source. *)
Theorem getImageUrl_injective (cdnDomain : option string) (src src' : string) :
  absolute src -> absolute src' ->
  getImageUrl cdnDomain src true = getImageUrl cdnDomain src' true ->
  src = src'.
Proof.
rewrite /getImageUrl /= => -> -> /append_inj [].
exact: encodeURIComponent_inj.
Qed.

(** X20: the class h-64, meant as the height of a filled image without a
    containerHeight, is passed for the container only when fill is set and
    containerHeight is passed as the empty string. When containerHeight is
    left out its default '200px' applies: the container then has the
    inline height 200px and never the class h-64, whatever fill is. *)
Theorem default_height_only_for_empty (p : Props) :
  (default_height p <-> fill p = Some true /\ containerHeight p = Some EmptyString) /\
  (containerHeight p = None ->
   default_height p = false /\ container_height p = "200px"%string).
Proof.
rewrite /default_height /container_height /or_default /nonempty.
case: (fill p) => [[]|]; case: (containerHeight p) => [h|] /=;
  split=> //; try by split=> // [[]].
rewrite negbK; split=> [/String.eqb_spec ->|[_ [->]]] //.
Qed.

End ImageAddress.

Lemma getImageUrl_shape_witness :
  Image.getImageUrl (Some "https://cdn.example"%string) "https://a.b/c.png" true
    = "https://cdn.example/https%3A%2F%2Fa.b%2Fc.png"%string /\
  Image.getImageUrl None "/local/c.png" true = "/local/c.png"%string.
Proof.
have [cdn _] :=
  getImageUrl_shape (Some "https://cdn.example"%string)
    "https://a.b/c.png"%string true.
have [_ kept] := getImageUrl_shape None "/local/c.png"%string true.
split; first by have [-> _] := cdn (erefl true).
exact: (kept (erefl false)).
Defined.

Lemma getImageUrl_injective_witness :
  "http://a/x"%string = "http://a/x"%string.
Proof.
exact: (@getImageUrl_injective None "http://a/x"%string "http://a/x"%string
          (erefl true) (erefl true) (erefl _)).
Defined.

Lemma default_height_only_for_empty_witness :
  Image.default_height
    (Image.mkProps None None None (Some true) None None) = false /\
  Image.container_height
    (Image.mkProps None None None (Some true) None None) = "200px"%string.
Proof.
have [_ omitted] :=
  default_height_only_for_empty
    (Image.mkProps None None None (Some true) None None).
exact: (omitted (erefl _)).
Defined.

(* --------------------------------------------------------------------- *)
(* 19. VirtualizedCommand: what the rows show                             *)
(* --------------------------------------------------------------------- *)

Lemma rows_members (P : Option -> bool) (s : seq Option)
    (virtualOptions : seq VirtualItem) :
  {in s, forall o, P o} ->
  all (fun v => index v < size s) virtualOptions ->
  all (fun row => if row is Some o then P o else false)
      (Multiple.rows virtualOptions s).
Proof.
move=> holds; rewrite /Multiple.rows all_map.
elim: virtualOptions => [|v vs IH] //= /andP [in_v in_vs].
rewrite {}IH // andbT (nth_map apple) //.
by apply: holds; exact: mem_nth.
Qed.


